(** * Fission: the Ghidra decompiler gRPC server

    A shallow embedding of the engine side of Fission's decompilation
    service: the in-memory load images that feed the Sleigh decoder, the
    [DecompilerServiceImpl] state machine (LoadBinary / DecompileFunction /
    DisassembleRange / Ping) and the linear-sweep basic-block builder that
    lives inside [DecompileFunction].

    The service follows the full implementation of the server (the one
    built on [ServerArchitecture], with the 200-instruction sweep).  The
    earlier draft kept in [ghidra_decompiler/server_main.cc] shares
    [MemoryLoadImage], the not-loaded guard, [Ping] and the empty
    [DisassembleRange] with it; its sweep reads a length that is never
    assigned ([emit.len]) and is not given a meaning here.

    Conventions.
    - [uint64_t] values are [Z] with the wrap-around written out ([wrap64]);
      [int4] values are [Z].
    - Byte buffers ([std::string] used as a buffer, [uint1*]) are
      [list byte].
    - The Ghidra library (SleighArchitecture, Funcdata, PrintC, Address) is
      not part of the repository: it is taken as an interface
      ([GhidraEngine]) whose operations may throw. *)

From Stdlib Require Import Strings.String Strings.Ascii Strings.Byte.
From Stdlib Require Import ZArith NArith HexadecimalString List Bool Lia.
From Equations Require Import Equations.
Import ListNotations.
Local Open Scope Z_scope.

(* ===================================================================== *)
(** * Machine integers *)

Definition two64 : Z := 2 ^ 64.

(** Arithmetic on [uint64_t] is modulo 2^64. *)
Definition wrap64 (x : Z) : Z := x mod two64.

(* ===================================================================== *)
(** * Engine-side memory images *)

(** [class MemoryLoadImage : public LoadImage] of the gRPC server. *)
Module MemoryLoadImage.

Record t : Type := mk {
  data_ : list byte;      (* std::string data_ *)
  base_addr_ : Z          (* uint64_t base_addr_ *)
}.

(** One iteration of the body of the [for] loop of [loadFill]: the value
    stored in [ptr[i]]. *)
Definition fill_at (img : t) (offset : Z) (i : Z) : byte :=
  let max := wrap64 (base_addr_ img + Z.of_nat (length (data_ img))) in
  let cur := wrap64 (offset + i) in
  if (base_addr_ img <=? cur) && (cur <? max)
  then nth (Z.to_nat (cur - base_addr_ img)) (data_ img) x00
  else x00.

(** [for (int4 i = 0; i < size; ++i)]: [n] iterations are left. *)
Fixpoint fill_loop (img : t) (offset : Z) (i : Z) (n : nat) : list byte :=
  match n with
  | O => []
  | S n' => fill_at img offset i :: fill_loop img offset (i + 1) n'
  end.

(** [loadFill(ptr, size, addr)]: the bytes written to [ptr[0..size)],
    where [offset = addr.getOffset()]. *)
Definition loadFill (img : t) (size : Z) (offset : Z) : list byte :=
  fill_loop img offset 0 (Z.to_nat size).

End MemoryLoadImage.

(** [class BufferLoadImage : public LoadImage] of the C wrapper. *)
Module BufferLoadImage.

Record t : Type := mk {
  m_buffer : list byte;   (* const uint8_t* m_buffer, m_buffer_size bytes *)
  m_base_addr : Z         (* uint64_t m_base_addr *)
}.

Definition m_buffer_size (img : t) : Z := Z.of_nat (length (m_buffer img)).

Definition fill_at (img : t) (rel_offset : Z) (i : Z) : byte :=
  if wrap64 (rel_offset + i) <? m_buffer_size img
  then nth (Z.to_nat (wrap64 (rel_offset + i))) (m_buffer img) x00
  else x00.

Fixpoint fill_loop (img : t) (rel_offset : Z) (i : Z) (n : nat) : list byte :=
  match n with
  | O => []
  | S n' => fill_at img rel_offset i :: fill_loop img rel_offset (i + 1) n'
  end.

Definition loadFill (img : t) (size : Z) (offset : Z) : list byte :=
  if offset <? m_base_addr img
  then repeat x00 (Z.to_nat size)                       (* memset(ptr, 0, size) *)
  else
    let rel_offset := wrap64 (offset - m_base_addr img) in
    fill_loop img rel_offset 0 (Z.to_nat size).

End BufferLoadImage.

(* ===================================================================== *)
(** * Wire protocol

    The messages of [protos/ghidra_service.proto], as the handlers use
    them.  A freshly created message has every field at its protobuf
    default (0, false, the empty string, the empty list). *)

Module Instruction.
Record t : Type := mk {
  address : Z;            (* uint64 *)
  length : Z;             (* uint32 *)
  mnemonic : string;
  operands : string;
  raw_bytes : list byte
}.
End Instruction.

Module BasicBlock.
Record t : Type := mk {
  id : Z;
  start_addr : Z;
  end_addr : Z;
  instructions : list Instruction.t
}.

Definition default : t := mk 0 0 0 [].

(* The setters generated by protoc. *)
Definition set_id (v : Z) (b : t) : t :=
  mk v (start_addr b) (end_addr b) (instructions b).
Definition set_start_addr (v : Z) (b : t) : t :=
  mk (id b) v (end_addr b) (instructions b).
Definition set_end_addr (v : Z) (b : t) : t :=
  mk (id b) (start_addr b) v (instructions b).
Definition add_instructions (i : Instruction.t) (b : t) : t :=
  mk (id b) (start_addr b) (end_addr b) (instructions b ++ [i]).
End BasicBlock.

Module LoadBinaryRequest.
Record t : Type := mk {
  binary_content : list byte;
  base_address : Z;
  arch_spec : string;
  sla_path : string
}.
End LoadBinaryRequest.

Module LoadBinaryResponse.
Record t : Type := mk {
  success : bool;
  error_message : string
}.
Definition default : t := mk false EmptyString.
Definition set_success (v : bool) (r : t) : t := mk v (error_message r).
Definition set_error_message (v : string) (r : t) : t := mk (success r) v.
End LoadBinaryResponse.

Module DecompileRequest.
Record t : Type := mk { address : Z }.
End DecompileRequest.

Module DecompileResponse.
Record t : Type := mk {
  success : bool;
  signature : string;
  c_code : string;
  blocks : list BasicBlock.t;
  error_message : string
}.
Definition default : t := mk false EmptyString EmptyString [] EmptyString.
Definition set_success (v : bool) (r : t) : t :=
  mk v (signature r) (c_code r) (blocks r) (error_message r).
Definition set_signature (v : string) (r : t) : t :=
  mk (success r) v (c_code r) (blocks r) (error_message r).
Definition set_c_code (v : string) (r : t) : t :=
  mk (success r) (signature r) v (blocks r) (error_message r).
Definition set_error_message (v : string) (r : t) : t :=
  mk (success r) (signature r) (c_code r) (blocks r) v.
(** [add_blocks()] appends a default block; the pointer it returns
    designates the last element of [blocks]. *)
Definition add_blocks (r : t) : t :=
  mk (success r) (signature r) (c_code r)
     (blocks r ++ [BasicBlock.default]) (error_message r).
Definition set_blocks (bs : list BasicBlock.t) (r : t) : t :=
  mk (success r) (signature r) (c_code r) bs (error_message r).
End DecompileResponse.

Module DisassembleRequest.
(** Modelled from the spec: the request is never read by the handler; its
  fields are the two bounds of the interface description. *)
Record t : Type := mk { start : Z; end_ : Z }.
End DisassembleRequest.

Module DisassembleResponse.
(** Modelled from the spec: the proto file is not in the sources and
    neither handler touches the reply, so the fields are those the
    interface description gives the response (a success flag, the
    instruction list and an error message). *)
Record t : Type := mk {
  success : bool;
  instructions : list Instruction.t;
  error_message : string
}.
Definition default : t := mk false [] EmptyString.
End DisassembleResponse.

Module PingResponse.
Record t : Type := mk { alive : bool }.
Definition default : t := mk false.
Definition set_alive (v : bool) (r : t) : t := mk v.
End PingResponse.

(** gRPC status returned by a handler; every handler returns [Status::OK]. *)
Inductive Status : Type := OK.

(* ===================================================================== *)
(** * The Ghidra library, as the server sees it *)

(** The three classes of exception the handlers distinguish. *)
Inductive exn : Type :=
| LowlevelError (explain : string)      (* catch (const LowlevelError& e) *)
| std_exception (what : string)         (* catch (const std::exception& e) *)
| unknown_exception.                    (* catch (...) *)

Inductive result (T : Type) : Type :=
| Ok (v : T)
| Throw (e : exn).
Arguments Ok {T} v.
Arguments Throw {T} e.

(** [class ServerAssemblyEmit]: what [dump] stored. *)
Record ServerAssemblyEmit : Type := mkEmit {
  mnem : string;
  body : string
}.

(** The part of the Ghidra API that the server calls.  [Arch] is the state
    of a [ServerArchitecture] object together with everything it owns
    (translator, symbol table, action database, printer); operations that
    mutate it return the new state, also when they throw. *)
Class GhidraEngine : Type := {
  Arch : Type;
  Funcdata : Type;
  AddrSpace : Type;
  (* ServerArchitecture(sleigh_id, ldr, err) *)
  new_ServerArchitecture : string -> MemoryLoadImage.t -> result Arch;
  (* arch->init(store) *)
  init : Arch -> Arch * result unit;
  (* arch->getDefaultCodeSpace() *)
  getDefaultCodeSpace : Arch -> AddrSpace;
  (* AddrSpace::wrapOffset, used by Address::operator+ *)
  wrapOffset : AddrSpace -> Z -> Z;
  (* global_scope->findFunction(func_addr) *)
  findFunction : Z -> Arch -> Arch * result (option Funcdata);
  (* global_scope->addFunction(func_addr, name)->getFunction() *)
  addFunction : Z -> string -> Arch -> Arch * result (option Funcdata);
  isProcStarted : Funcdata -> Arch -> Arch * result bool;
  clearAnalysis : Funcdata -> Arch -> Arch * result unit;
  (* arch->allacts.getCurrent()->reset(fd) and ->perform(fd) *)
  reset : Funcdata -> Arch -> Arch * result unit;
  perform : Funcdata -> Arch -> Arch * result Z;
  (* arch->print->setOutputStream(&s); arch->print->docFunction(fd) *)
  docFunction : Funcdata -> Arch -> Arch * result string;
  getName : Funcdata -> Arch -> Arch * result string;
  (* arch->translate->printAssembly(emit, addr): the length returned and
     the emitter after the call *)
  printAssembly : Z -> Arch -> Arch * result (Z * ServerAssemblyEmit)
}.

(** [Address::operator+]: the offset of [cur + off] in the space of [cur]. *)
Definition Address_plus {E : GhidraEngine} (sp : AddrSpace) (cur off : Z) : Z :=
  wrapOffset sp (wrap64 (cur + off)).

(* ===================================================================== *)
(** * Strings *)

(** [s.find(pat)]: the position of the first occurrence of [pat] in [s];
    [None] stands for [string::npos]. *)
Definition find (s pat : string) : option nat := index 0 pat s.
Arguments find : simpl never.

Definition empty (s : string) : bool :=
  match s with EmptyString => true | String _ _ => false end.

(** [out << std::hex << v] for an unsigned value. *)
Definition hex (v : Z) : string :=
  HexadecimalString.NilZero.string_of_uint (N.to_hex_uint (Z.to_N v)).

(* ===================================================================== *)
(** * The decompiler service (full implementation) *)

Module Server.
Section WithEngine.
Context {E : GhidraEngine}.

(** The data members of [class DecompilerServiceImpl].  The mutex is not
    modelled: it serialises the handlers, each of which is a function of
    the state here. *)
Record DecompilerServiceImpl : Type := mk {
  loader : option MemoryLoadImage.t;   (* std::unique_ptr<MemoryLoadImage> *)
  arch : option Arch;                  (* std::unique_ptr<ServerArchitecture> *)
  base_address : Z;
  initialized : bool
}.

(** The object right after construction. *)
Definition new_service : DecompilerServiceImpl := mk None None 0 false.

Definition cleanup (s : DecompilerServiceImpl) : DecompilerServiceImpl :=
  mk None None (base_address s) false.

(** ** LoadBinary *)

(** "Get language ID": the request's [arch_spec], or the 64-bit x86
    default when it is empty. *)
Definition lang_id (request : LoadBinaryRequest.t) : string :=
  if empty (LoadBinaryRequest.arch_spec request)
  then "x86:LE:64:default"%string
  else LoadBinaryRequest.arch_spec request.

(** The [try] block of [LoadBinary]: the state when the block is left and
    whether it was left by an exception. *)
Definition LoadBinary_try (s : DecompilerServiceImpl) (request : LoadBinaryRequest.t)
  : DecompilerServiceImpl * result unit :=
  let s := cleanup s in
  let base := LoadBinaryRequest.base_address request in
  let ld := MemoryLoadImage.mk (LoadBinaryRequest.binary_content request) base in
  match new_ServerArchitecture (lang_id request) ld with
  | Throw e => (mk (Some ld) None base false, Throw e)
  | Ok a =>
      match init a with
      | (a', Throw e) => (mk (Some ld) (Some a') base false, Throw e)
      | (a', Ok _) => (mk (Some ld) (Some a') base true, Ok tt)
      end
  end.

(** The message each [catch] clause puts in the reply. *)
Definition LoadBinary_message (e : exn) : string :=
  match e with
  | LowlevelError explain => explain
  | std_exception what => what
  | unknown_exception => "Unknown exception during initialization"%string
  end.

Definition LoadBinary (s : DecompilerServiceImpl) (request : LoadBinaryRequest.t)
  : DecompilerServiceImpl * LoadBinaryResponse.t * Status :=
  let reply := LoadBinaryResponse.default in
  match LoadBinary_try s request with
  | (s', Ok _) => (s', LoadBinaryResponse.set_success true reply, OK)
  | (s', Throw e) =>
      (cleanup s',
       LoadBinaryResponse.set_error_message (LoadBinary_message e)
         (LoadBinaryResponse.set_success false reply),
       OK)
  end.

(** ** Ping and DisassembleRange *)

Definition Ping (s : DecompilerServiceImpl)
  : DecompilerServiceImpl * PingResponse.t * Status :=
  (s, PingResponse.set_alive true PingResponse.default, OK).

Definition DisassembleRange (s : DecompilerServiceImpl) (request : DisassembleRequest.t)
  : DecompilerServiceImpl * DisassembleResponse.t * Status :=
  (s, DisassembleResponse.default, OK).

(** ** The linear sweep of DecompileFunction *)

Definition MAX_INSTRS : Z := 200.

(** The number of times the guard [instr_count < MAX_INSTRS] can still hold. *)
Definition budget (instr_count : Z) : nat := Z.to_nat (MAX_INSTRS - instr_count).
Arguments budget : simpl never.

(** How one run of the [while] loop ends: normally, with the final cursor,
    or by an exception of [printAssembly].  Either way the architecture
    state and the block built so far are returned. *)
Equations? sweep (sp : AddrSpace) (g : Arch) (pb_block : BasicBlock.t)
           (cur : Z) (instr_count : Z)
  : Arch * BasicBlock.t * result Z
  by wf (budget instr_count) lt :=
sweep sp g pb_block cur instr_count with Z_lt_dec instr_count MAX_INSTRS := {
  | right _ => (g, pb_block, Ok cur)
  | left Hlt with printAssembly cur g := {
    | (g', Throw e) => (g', pb_block, Throw e)
    | (g', Ok (len, emit)) with Z_le_dec len 0 := {
      | left _ => (g', pb_block, Ok cur)                      (* if (length <= 0) break; *)
      | right _ with find (mnem emit) "RET" := {
        | Some _ =>                                           (* Stop at RET *)
            (g',
             BasicBlock.add_instructions
               (Instruction.mk cur len (mnem emit) (body emit) []) pb_block,
             Ok cur)
        | None =>
            sweep sp g'
              (BasicBlock.add_instructions
                 (Instruction.mk cur len (mnem emit) (body emit) []) pb_block)
              (Address_plus sp cur len)
              (instr_count + 1)
        }
      }
    }
  }.
Proof. unfold budget, MAX_INSTRS in *. lia. Qed.


(** ** DecompileFunction *)

(** The body of the [try] block runs against the architecture and the reply
    under construction; what was written to the reply before an exception
    stays in it. *)
Definition Handler (T : Type) : Type :=
  Arch * DecompileResponse.t -> (Arch * DecompileResponse.t) * result T.

Definition ret {T : Type} (v : T) : Handler T := fun st => (st, Ok v).

Definition bind {T U : Type} (m : Handler T) (k : T -> Handler U) : Handler U :=
  fun st =>
    match m st with
    | (st', Ok v) => k v st'
    | (st', Throw e) => (st', Throw e)
    end.

Notation "x <- m ;; k" := (bind m (fun x => k))
  (at level 61, m at next level, right associativity).
Notation "m ;; k" := (bind m (fun _ => k))
  (at level 61, right associativity).

(** A call into the Ghidra library. *)
Definition engine {T : Type} (op : Arch -> Arch * result T) : Handler T :=
  fun st => let (g', r) := op (fst st) in ((g', snd st), r).

(** A setter applied to [*reply]. *)
Definition on_reply (f : DecompileResponse.t -> DecompileResponse.t) : Handler unit :=
  fun st => ((fst st, f (snd st)), Ok tt).

(** [l[n] = f(l[n])], nothing when [n] is out of range. *)
Fixpoint update_at {A : Type} (n : nat) (f : A -> A) (l : list A) : list A :=
  match l, n with
  | [], _ => []
  | x :: r, O => f x :: r
  | x :: r, S n' => x :: update_at n' f r
  end.

(** [reply->add_blocks()]: the position of the new block stands for the
    pointer that is returned. *)
Definition add_blocks : Handler nat :=
  fun st =>
    ((fst st, DecompileResponse.add_blocks (snd st)),
     Ok (List.length (DecompileResponse.blocks (snd st)))).

(** A setter applied through [pb_block]. *)
Definition on_block (pb_block : nat) (f : BasicBlock.t -> BasicBlock.t) : Handler unit :=
  on_reply (fun r =>
    DecompileResponse.set_blocks (update_at pb_block f (DecompileResponse.blocks r)) r).

(** The [while] loop, run on the block [pb_block] points to. *)
Definition run_sweep (sp : AddrSpace) (pb_block : nat) (cur : Z) : Handler Z :=
  fun st =>
    let blocks := DecompileResponse.blocks (snd st) in
    match sweep sp (fst st) (nth pb_block blocks BasicBlock.default) cur 0 with
    | (g', b', r) =>
        ((g', DecompileResponse.set_blocks (update_at pb_block (fun _ => b') blocks) (snd st)), r)
    end.

(** "Find or create function in symbol table". *)
Definition find_or_create_function (func_addr : Z) (fname : string)
  : Handler (option Funcdata) :=
  fd <- engine (findFunction func_addr) ;;
  match fd with
  | Some _ => ret fd
  | None => engine (addFunction func_addr fname)
  end.

(** "Clear any previous analysis" and "Perform decompilation". *)
Definition perform_decompilation (fd : Funcdata) : Handler unit :=
  started <- engine (isProcStarted fd) ;;
  (if started : bool then engine (clearAnalysis fd) else ret tt) ;;
  engine (reset fd) ;;
  res <- engine (perform fd) ;;
  ret tt.

(** "Generate C Code". *)
Definition generate_c_code (fd : Funcdata) : Handler unit :=
  c_stream <- engine (docFunction fd) ;;
  on_reply (DecompileResponse.set_c_code c_stream) ;;
  name <- engine (getName fd) ;;
  on_reply (DecompileResponse.set_signature (name ++ "()")) ;;
  on_reply (DecompileResponse.set_success true).

(** "Generate Disassembly Blocks": one block, filled by the linear
    sweep from the function address. *)
Definition generate_disassembly_blocks (sp : AddrSpace) (func_addr : Z) : Handler unit :=
  pb_block <- add_blocks ;;
  on_block pb_block (BasicBlock.set_start_addr func_addr) ;;
  on_block pb_block (BasicBlock.set_id func_addr) ;;
  cur <- run_sweep sp pb_block func_addr ;;
  on_block pb_block (BasicBlock.set_end_addr cur).

(** The [try] block of [DecompileFunction]. *)
Definition DecompileFunction_try (request : DecompileRequest.t) : Handler unit :=
  fun st =>
  let sp := getDefaultCodeSpace (fst st) in
  let func_addr := DecompileRequest.address request in
  let fname := ("func_" ++ hex (DecompileRequest.address request))%string in
  (fd <- find_or_create_function func_addr fname ;;
   match fd with
   | None =>
       on_reply (DecompileResponse.set_success false) ;;
       on_reply (DecompileResponse.set_error_message "Failed to create function")
   | Some fd =>
       perform_decompilation fd ;;
       generate_c_code fd ;;
       generate_disassembly_blocks sp func_addr
   end) st.

Definition DecompileFunction_message (e : exn) : string :=
  match e with
  | LowlevelError explain => explain
  | std_exception what => what
  | unknown_exception => "Unknown exception during decompilation"%string
  end.

Definition set_arch (g : Arch) (s : DecompilerServiceImpl) : DecompilerServiceImpl :=
  mk (loader s) (Some g) (base_address s) (initialized s).

Definition DecompileFunction (s : DecompilerServiceImpl) (request : DecompileRequest.t)
  : DecompilerServiceImpl * DecompileResponse.t * Status :=
  let reply := DecompileResponse.default in
  match initialized s, arch s with
  | true, Some g =>
      match DecompileFunction_try request (g, reply) with
      | ((g', reply'), Ok _) => (set_arch g' s, reply', OK)
      | ((g', reply'), Throw e) =>
          (set_arch g' s,
           DecompileResponse.set_error_message (DecompileFunction_message e)
             (DecompileResponse.set_success false reply'),
           OK)
      end
  | _, _ =>
      (s,
       DecompileResponse.set_error_message "Binary not loaded"
         (DecompileResponse.set_success false reply),
       OK)
  end.

End WithEngine.
End Server.

(* ===================================================================== *)
(** * A small engine to run the service against

    A stand-in for the Ghidra library with a 64-bit flat code space and a
    decoder for a handful of one- and two-byte x86 instructions, reading
    through the load image the way Sleigh does.  It accepts exactly the
    language id [x86:LE:64:default]. *)

Module MiniX86.

Definition decode (image : MemoryLoadImage.t) (addr : Z)
  : result (Z * ServerAssemblyEmit) :=
  match MemoryLoadImage.loadFill image 2 addr with
  | [xc3; _] => Ok (1, mkEmit "RET" "")
  | [x90; _] => Ok (1, mkEmit "NOP" "")
  | [xcc; _] => Ok (1, mkEmit "INT3" "")
  | [xeb; rel] => Ok (2, mkEmit "JMP" (hex (wrap64 (addr + 2 + Z.of_N (Byte.to_N rel)))))
  | [x00; x00] => Ok (2, mkEmit "ADD" "byte ptr [RAX],AL")
  | _ => Throw (LowlevelError "Unable to resolve constructor")
  end.

#[export] Instance engine : GhidraEngine := {|
  Arch := MemoryLoadImage.t;
  Funcdata := Z;
  AddrSpace := unit;
  new_ServerArchitecture lang ld :=
    if String.eqb lang "x86:LE:64:default" then Ok ld
    else Throw (LowlevelError ("No sleigh specification for " ++ lang));
  init g := (g, Ok tt);
  getDefaultCodeSpace _ := tt;
  wrapOffset _ off := off;
  findFunction _ g := (g, Ok None);
  addFunction addr _ g := (g, Ok (Some addr));
  isProcStarted _ g := (g, Ok false);
  clearAnalysis _ g := (g, Ok tt);
  reset _ g := (g, Ok tt);
  perform _ g := (g, Ok 0);
  docFunction fd g := (g, Ok ("void func_" ++ hex fd ++ "(void) { return; }")%string);
  getName fd g := (g, Ok ("func_" ++ hex fd)%string);
  printAssembly addr g := (g, decode g addr)
|}.

(** A service that has loaded [content] at [base]. *)
Definition loaded (content : list byte) (base : Z) : Server.DecompilerServiceImpl :=
  fst (fst (Server.LoadBinary Server.new_service
              (LoadBinaryRequest.mk content base "" ""))).

Definition decompile (content : list byte) (base : Z) (address : Z)
  : DecompileResponse.t :=
  snd (fst (Server.DecompileFunction (loaded content base)
              (DecompileRequest.mk address))).

End MiniX86.

(* ===================================================================== *)
(** * Properties of reads, states and blocks *)

(** What a read of a memory image is required to return: [out] has [size]
    bytes, and the byte at address [address + i] is the buffer byte when the
    address lies in [[base, base + len)] and zero otherwise. *)
Definition read_spec (buffer : list byte) (base : Z)
           (address size : Z) (out : list byte) : Prop :=
  length out = Z.to_nat size /\
  forall i, 0 <= i < size ->
    let a := wrap64 (address + i) in
    nth (Z.to_nat i) out x00 =
      if (base <=? a) && (a <? base + Z.of_nat (length buffer))
      then nth (Z.to_nat (a - base)) buffer x00
      else x00.

Section Properties.
Context {E : GhidraEngine}.

(** No binary session: no loader, no architecture, flag cleared. *)
Definition Uninitialized (s : Server.DecompilerServiceImpl) : Prop :=
  Server.loader s = None /\ Server.arch s = None /\ Server.initialized s = false.

(** The load image LoadBinary builds for [request]. *)
Definition image_of (request : LoadBinaryRequest.t) : MemoryLoadImage.t :=
  MemoryLoadImage.mk (LoadBinaryRequest.binary_content request)
                     (LoadBinaryRequest.base_address request).

(** The session of [request] and nothing else: the loader holds the
    request's bytes at the request's base, the architecture is the one
    built and initialised over that loader for the request's language, and
    the flag is set. *)
Definition Loaded (request : LoadBinaryRequest.t) (s : Server.DecompilerServiceImpl) : Prop :=
  Server.loader s = Some (image_of request) /\
  (exists a a',
     new_ServerArchitecture (Server.lang_id request) (image_of request) = Ok a /\
     init a = (a', Ok tt) /\
     Server.arch s = Some a') /\
  Server.base_address s = LoadBinaryRequest.base_address request /\
  Server.initialized s = true.

(** The guard of [DecompileFunction]: [!initialized || !arch]. *)
Definition not_loaded (s : Server.DecompilerServiceImpl) : Prop :=
  Server.initialized s = false \/ Server.arch s = None.

(** The reply of a DecompileFunction call that finds no binary loaded. *)
Definition binary_not_loaded_reply : DecompileResponse.t :=
  DecompileResponse.mk false EmptyString EmptyString [] "Binary not loaded".

(** The test that ends the sweep: [emit.mnem.find("RET") != string::npos]. *)
Definition stops (mnemonic : string) : bool :=
  match find mnemonic "RET" with Some _ => true | None => false end.

(** The instructions lie end to end from address [a]: the first one is at
    [a], each next one at the address of the one before plus its length. *)
Fixpoint contiguous (sp : AddrSpace) (a : Z) (l : list Instruction.t) : Prop :=
  match l with
  | [] => True
  | i :: l' =>
      Instruction.address i = a /\
      contiguous sp (Address_plus sp a (Instruction.length i)) l'
  end.

(** An instruction on which the sweep stops has nothing after it. *)
Fixpoint stop_is_last (l : list Instruction.t) : Prop :=
  match l with
  | [] => True
  | i :: l' => (stops (Instruction.mnemonic i) = true -> l' = []) /\ stop_is_last l'
  end.


(** The address reached from [a] by adding the length of each instruction
    of [l] in turn. *)
Definition end_of (sp : AddrSpace) (a : Z) (l : list Instruction.t) : Z :=
  fold_left (fun a i => Address_plus sp a (Instruction.length i)) l a.

(** The instructions the cursor has moved past: all but a closing RET. *)
Definition passed (l : list Instruction.t) : list Instruction.t :=
  filter (fun i => negb (stops (Instruction.mnemonic i))) l.

Definition sum_lengths (l : list Instruction.t) : Z :=
  fold_right Z.add 0 (map Instruction.length l).

(** What one run of the sweep loop, entered at cursor [cur] with count [n]
    and block [blk], leaves behind: the block header is untouched, the
    instructions [new] were appended, and a normal exit returns the cursor
    moved past every instruction but a closing RET. *)
Definition sweep_post (sp : AddrSpace) (blk : BasicBlock.t) (cur n : Z)
           (blk' : BasicBlock.t) (r : result Z) : Prop :=
  exists new,
    blk' = BasicBlock.mk (BasicBlock.id blk) (BasicBlock.start_addr blk)
             (BasicBlock.end_addr blk) (BasicBlock.instructions blk ++ new) /\
    (List.length new <= Server.budget n)%nat /\
    contiguous sp cur new /\
    Forall (fun i => 0 < Instruction.length i) new /\
    stop_is_last new /\
    (forall c, r = Ok c -> c = end_of sp cur (passed new)).

(** A step of the handler that leaves the reply as it is. *)
Definition keeps_reply {T : Type} (m : Server.Handler T) : Prop :=
  forall st st' r, m st = (st', r) -> snd st' = snd st.

(** The block a DecompileFunction call for [address] starts from: header
    set, no instruction, end address still at its default. *)
Definition entry_block (address : Z) : BasicBlock.t :=
  BasicBlock.mk address address 0 [].

End Properties.

(* ===================================================================== *)
(** * Engines with a scripted decoder

    Stand-ins for the Ghidra library whose decoder answers by a given
    function of the address and whose symbol table either creates the
    requested function or returns a null pointer.  The code space is flat
    and 64 bits wide. *)

Module Fake.

Definition engine (dec : Z -> result (Z * ServerAssemblyEmit)) (can_create : bool)
  : GhidraEngine := {|
  Arch := unit;
  Funcdata := Z;
  AddrSpace := unit;
  new_ServerArchitecture _ _ := Ok tt;
  init g := (g, Ok tt);
  getDefaultCodeSpace _ := tt;
  wrapOffset _ off := off;
  findFunction _ g := (g, Ok None);
  addFunction addr _ g := (g, Ok (if can_create then Some addr else None));
  isProcStarted _ g := (g, Ok false);
  clearAnalysis _ g := (g, Ok tt);
  reset _ g := (g, Ok tt);
  perform _ g := (g, Ok 0);
  docFunction _ g := (g, Ok EmptyString);
  getName fd g := (g, Ok ("func_" ++ hex fd)%string);
  printAssembly addr g := (g, dec addr)
|}.

(** A decoder that sees a one-byte NOP everywhere. *)
Definition nop_sled (addr : Z) : result (Z * ServerAssemblyEmit) :=
  Ok (1, mkEmit "NOP" "").

(** A decoder that resolves nothing: length 0 everywhere. *)
Definition undecodable (addr : Z) : result (Z * ServerAssemblyEmit) :=
  Ok (0, mkEmit "" "").


(** The service of [engine dec can_create] after a successful load. *)
Definition loaded (dec : Z -> result (Z * ServerAssemblyEmit)) (can_create : bool)
  : Server.DecompilerServiceImpl (E := engine dec can_create) :=
  Server.mk (E := engine dec can_create) (Some (MemoryLoadImage.mk [] 0)) (Some tt) 0 true.

End Fake.

(* ===================================================================== *)
(** * Further properties of engines and blocks *)

Section MoreProperties.
Context {E : GhidraEngine}.

(** The code space neither truncates nor moves a 64-bit offset. *)
Definition flat64 : Prop :=
  forall sp x, wrapOffset sp (wrap64 x) = wrap64 x.

(** In every state the decoder answers with an instruction of positive
    length on which the sweep does not stop. *)
Definition never_stops : Prop :=
  forall a g0, exists g1 len emit,
    printAssembly a g0 = (g1, Ok (len, emit)) /\ 0 < len /\
    find (mnem emit) "RET" = None.

(** The state after a run of DecompileFunction calls, one per request. *)
Definition decompile_all (s : Server.DecompilerServiceImpl)
           (requests : list DecompileRequest.t) : Server.DecompilerServiceImpl :=
  fold_left (fun s r => fst (fst (Server.DecompileFunction s r))) requests s.

(** In every state the decoder resolves nothing at [a]. *)
Definition undecodable_at (a : Z) : Prop :=
  forall g0, exists g1 len emit,
    printAssembly a g0 = (g1, Ok (len, emit)) /\ len <= 0.

End MoreProperties.

(* ===================================================================== *)
(** * Locating the language definitions (server start-up) *)

Module Paths.

(** Whether [c] is one of the characters of [chars]. *)
Definition one_of (chars : string) (c : ascii) : bool :=
  existsb (Ascii.eqb c) (list_ascii_of_string chars).

(** [s.find_last_of(chars)]: the position of the last character of [s]
    that is one of [chars]; [None] stands for [string::npos]. *)
Fixpoint find_last_of (s chars : string) : option nat :=
  match s with
  | EmptyString => None
  | String c s' =>
      match find_last_of s' chars with
      | Some n => Some (S n)
      | None => if one_of chars c then Some O else None
      end
  end.

(** The tail of [getExecutableDir], common to both platforms: cut the path
    at its last separator, or answer ["."] when it has none. *)
Definition dir_of (separators exePath : string) : string :=
  match find_last_of exePath separators with
  | Some lastSlash => substring 0 lastSlash exePath
  | None => "."%string
  end.

(** [getExecutableDir()], the [#else] branch (Linux, Mac).  [readlink] is
    what [readlink("/proc/self/exe", ...)] put in the buffer, [None] when it
    returned -1. *)
Definition getExecutableDir (readlink : option string) : string :=
  match readlink with
  | Some exePath => dir_of "/" exePath
  | None => "."%string
  end.

(** [getExecutableDir()], the [_WIN32] branch, on the path that
    [GetModuleFileNameA] returned: both slashes separate. *)
Definition getExecutableDir_win32 (exePath : string) : string :=
  dir_of (String "\" "/") exePath.

(** The three places the constructor looks in, as pairs (base directory,
    languages directory). *)
Definition searchPaths (exeDir : string) : list (string * string) :=
  [ (exeDir ++ "/../../ghidra_decompiler", exeDir ++ "/../../ghidra_decompiler/languages");
    (exeDir ++ "/../ghidra_decompiler", exeDir ++ "/../ghidra_decompiler/languages");
    (exeDir, exeDir ++ "/languages") ]%string.

(** The [for] loop over [searchPaths], with its [break]; [good path] tells
    whether [std::ifstream test(path)] opens.  The pair passed in is what
    [baseDir] and [langDir] hold when no place matches. *)
Fixpoint search (good : string -> bool) (paths : list (string * string))
         (baseDir langDir : string) : string * string :=
  match paths with
  | [] => (baseDir, langDir)
  | p :: rest =>
      if good (snd p ++ "/x86.ldefs")%string
      then (fst p, snd p)
      else search good rest baseDir langDir
  end.

(** The directories the constructor of [DecompilerServiceImpl] starts the
    library with: [Some (baseDir, langDir)], or [None] when it gives up
    ("Could not find languages directory") and returns at once. *)
Definition find_languages (good : string -> bool) (exeDir : string)
  : option (string * string) :=
  let '(baseDir, langDir) := search good (searchPaths exeDir) EmptyString EmptyString in
  if empty langDir then None else Some (baseDir, langDir).

End Paths.

(* ===================================================================== *)
(** * The C wrapper around the Sleigh engine (wrapper.cpp) *)

(** [static_cast<int>] of a [size_t]: the low 32 bits, read as signed. *)
Definition to_int (x : Z) : Z :=
  let y := x mod 2 ^ 32 in
  if y <? 2 ^ 31 then y else y - 2 ^ 32.

(** The line feed that ["\n"] stands for. *)
Definition nl : string := String "010" EmptyString.

(** How a call through the C interface ends: it returns, or an exception
    that no [catch] clause of the function matches leaves it. *)
Inductive outcome (T : Type) : Type :=
| Returns (v : T)
| Escapes (e : exn).
Arguments Returns {T} v.
Arguments Escapes {T} e.

(** What the wrapper copies into [out_buffer]: the first
    [min(result.size(), out_len - 1)] characters of [result], a NUL after
    them, and the count as an [int]. *)
Definition copy_out (result : string) (out_len : Z) : Z * string :=
  let copy_len := Z.min (Z.of_nat (String.length result)) (out_len - 1) in
  (to_int copy_len, substring 0 (Z.to_nat copy_len) result).

Module Wrapper.

(** One call of [AssemblyEmit::dump]. *)
Record Dump : Type := mkDump {
  dump_addr : Z;
  dump_mnem : string;
  dump_body : string
}.

(** The part of the Ghidra API the wrapper calls.  [Sleigh] is the state of
    a translator set up over a load image. *)
Class SleighLib : Type := {
  Sleigh : Type;
  (* startDecompilerLibrary(paths) *)
  startDecompilerLibrary : list string -> result unit;
  (* Sleigh sleigh(&loader, &context); docstorage.openDocument(sla_file);
     docstorage.registerTag(root); sleigh.initialize(docstorage);
     context.setVariableDefault(...) twice *)
  new_Sleigh : string -> BufferLoadImage.t -> result Sleigh;
  (* sleigh.printAssembly(emit, addr): the length returned and the calls
     of emit.dump it made *)
  printAssembly : Z -> Sleigh -> Sleigh * result (Z * list Dump)
}.

Section WithLib.
Context {L : SleighLib}.

(** [struct FissionDecompiler]; the mutex is not modelled and [arch] is
    never assigned. *)
Record FissionDecompiler : Type := mkDecompiler {
  sla_dir : string;
  initialized : bool
}.

(** The variables at file scope. *)
Record Globals : Type := mkGlobals {
  g_last_error : string;             (* thread_local *)
  g_library_initialized : bool
}.

Definition set_last_error (msg : string) (G : Globals) : Globals :=
  mkGlobals msg (g_library_initialized G).

(** [ensureLibraryInitialized(sla_dir)].  The [try] block builds [paths]
    and starts the library; what it throws is the [Throw] of
    [startDecompilerLibrary], and only a [std::exception] is caught. *)
Definition ensureLibraryInitialized (sla_dir : string) (G : Globals)
  : Globals * outcome bool :=
  if g_library_initialized G then (G, Returns true)
  else
    match startDecompilerLibrary [sla_dir] with
    | Ok _ => (mkGlobals (g_last_error G) true, Returns true)
    | Throw (std_exception what) =>
        (set_last_error ("Failed to initialize library: " ++ what) G, Returns false)
    | Throw e => (G, Escapes e)
    end.

(** [fission_decompiler_init(sla_dir)]; [None] is the null pointer, for
    the argument and for the result.  [alloc] is what the first two
    statements of the [try] block do, [new FissionDecompiler()] and the copy
    of [sla_dir] into the handle: they return, or throw ([std::bad_alloc] is
    a [std::exception]).  The [catch] clause then sets the error and returns
    the null pointer, the library staying initialised. *)
Definition fission_decompiler_init (sla_dir : option string) (alloc : result unit)
           (G : Globals)
  : Globals * outcome (option FissionDecompiler) :=
  match sla_dir with
  | None => (set_last_error "sla_dir is null" G, Returns None)
  | Some dir =>
      match ensureLibraryInitialized dir G with
      | (G', Returns true) =>
          match alloc with
          | Ok _ => (G', Returns (Some (mkDecompiler dir true)))
          | Throw (std_exception what) =>
              (set_last_error ("Failed to create decompiler: " ++ what) G', Returns None)
          | Throw e => (G', Escapes e)
          end
      | (G', Returns false) => (G', Returns None)
      | (G', Escapes e) => (G', Escapes e)
      end
  end.

(** [StringAssemblyEmit::dump], appending to the stream [out]. *)
Definition dump (out : string) (d : Dump) : string :=
  (out ++ hex (dump_addr d) ++ ":  " ++ dump_mnem d
       ++ (if empty (dump_body d) then "" else " " ++ dump_body d)
       ++ nl)%string.

Definition max_instructions : Z := 100.

Definition budget (count : Z) : nat := Z.to_nat (max_instructions - count).
Arguments budget : simpl never.

(** The [while] loop of [fission_disassemble]. *)
Equations? disassemble_loop (sleigh : Sleigh) (output : string)
           (bytes_len base_addr : Z) (offset count : Z)
  : Sleigh * string * result unit
  by wf (budget count) lt :=
disassemble_loop sleigh output bytes_len base_addr offset count
  with Z_lt_dec offset bytes_len := {
  | right _ => (sleigh, output, Ok tt)
  | left _ with Z_lt_dec count max_instructions := {
    | right _ => (sleigh, output, Ok tt)
    | left Hlt with printAssembly (wrap64 (base_addr + offset)) sleigh := {
      | (sleigh', Throw e) => (sleigh', output, Throw e)
      | (sleigh', Ok (instr_len, dumps)) with Z_le_dec instr_len 0 := {
        | left _ => (sleigh', fold_left dump dumps output, Ok tt)
        | right _ =>
            disassemble_loop sleigh' (fold_left dump dumps output)
              bytes_len base_addr (wrap64 (offset + instr_len)) (count + 1)
        }
      }
    }
  }.
Proof. unfold budget, max_instructions in *. lia. Qed.

(** What a call hands back: the [int] returned and, when the function
    wrote to [out_buffer], the characters written before the NUL. *)
Definition Reply : Type := (Z * option string)%type.

(** [g_last_error = msg; return -1;] *)
Definition fail (msg : string) (G : Globals) : Globals * outcome Reply :=
  (set_last_error msg G, Returns (-1, None)).

(** [fission_disassemble(decomp, bytes, bytes_len, base_addr, out_buffer,
    out_len)].  [decomp] and [bytes] are [None] for a null pointer, [bytes]
    being the buffer of [bytes_len] bytes; [out_buffer] tells whether the
    output pointer is non-null. *)
Definition fission_disassemble (decomp : option FissionDecompiler)
           (bytes : option (list byte)) (base_addr : Z)
           (out_buffer : bool) (out_len : Z) (G : Globals)
  : Globals * outcome Reply :=
  match decomp with
  | None => fail "Decompiler not initialized" G
  | Some d =>
  if negb (initialized d) then fail "Decompiler not initialized" G else
  match bytes with
  | None => fail "Invalid input bytes" G
  | Some [] => fail "Invalid input bytes" G
  | Some ((_ :: _) as bs) =>
  if negb out_buffer || (out_len =? 0) then fail "Invalid output buffer" G else
  let bytes_len := Z.of_nat (List.length bs) in
  let sla_file := (sla_dir d ++ "/x86-64.sla")%string in
  match new_Sleigh sla_file (BufferLoadImage.mk bs base_addr) with
  | Throw (std_exception what) => fail ("Disassembly failed: " ++ what) G
  | Throw e => (G, Escapes e)
  | Ok sleigh =>
      match disassemble_loop sleigh EmptyString bytes_len base_addr 0 0 with
      | (_, _, Throw (std_exception what)) => fail ("Disassembly failed: " ++ what) G
      | (_, _, Throw e) => (G, Escapes e)
      | (_, output, Ok _) =>
          let (n, written) := copy_out output out_len in
          (G, Returns (n, Some written))
      end
  end
  end
  end.

(** The text [fission_decompile] produces. *)
Definition decompile_text (base_addr : Z) : string :=
  ("// Decompiled by Fission (Ghidra Sleigh Engine)" ++ nl
   ++ "// Address: 0x" ++ hex base_addr ++ nl ++ nl
   ++ "void func_" ++ hex base_addr ++ "() {" ++ nl
   ++ "    // P-code lifting placeholder" ++ nl
   ++ "    // Full decompilation requires Funcdata analysis" ++ nl
   ++ "}" ++ nl)%string.

Definition fission_decompile (decomp : option FissionDecompiler)
           (bytes : option (list byte)) (base_addr : Z)
           (out_buffer : bool) (out_len : Z) (G : Globals)
  : Globals * outcome Reply :=
  match decomp with
  | None => fail "Decompiler not initialized" G
  | Some d =>
  if negb (initialized d) then fail "Decompiler not initialized" G else
  match bytes with
  | None => fail "Invalid input bytes" G
  | Some [] => fail "Invalid input bytes" G
  | Some ((_ :: _) as bs) =>
  if negb out_buffer || (out_len =? 0) then fail "Invalid output buffer" G else
  let sla_file := (sla_dir d ++ "/x86-64.sla")%string in
  match new_Sleigh sla_file (BufferLoadImage.mk bs base_addr) with
  | Throw (std_exception what) => fail ("Decompilation failed: " ++ what) G
  | Throw e => (G, Escapes e)
  | Ok sleigh =>
      let (n, written) := copy_out (decompile_text base_addr) out_len in
      (G, Returns (n, Some written))
  end
  end
  end.

(** [fission_get_error()]: [None] is the null pointer. *)
Definition fission_get_error (G : Globals) : option string :=
  if empty (g_last_error G) then None else Some (g_last_error G).

Definition fission_is_available (G : Globals) : Z :=
  if g_library_initialized G then 1 else 0.

End WithLib.

(** A library that starts from any directory and decodes NOP and RET. *)
#[export] Instance mini : SleighLib := {|
  Sleigh := BufferLoadImage.t;
  startDecompilerLibrary _ := Ok tt;
  new_Sleigh _ image := Ok image;
  printAssembly addr image :=
    (image,
     match BufferLoadImage.loadFill image 1 addr with
     | [xc3] => Ok (1, [mkDump addr "RET" ""])
     | [x90] => Ok (1, [mkDump addr "NOP" ""])
     | _ => Throw (LowlevelError "Unable to resolve constructor")
     end)
|}.

End Wrapper.

(* ===================================================================== *)
(** * Properties of the wrapper's calls *)

Section WrapperProperties.
Context {L : Wrapper.SleighLib}.

(** An argument that [fission_decompile] and [fission_disassemble]
    refuse: a null or uninitialised handle, a null or empty input, a null
    or zero-sized output buffer. *)
Definition invalid_arguments (decomp : option Wrapper.FissionDecompiler)
           (bytes : option (list byte)) (out_buffer : bool) (out_len : Z) : Prop :=
  decomp = None \/
  (exists d, decomp = Some d /\ Wrapper.initialized d = false) \/
  bytes = None \/ bytes = Some [] \/
  out_buffer = false \/ out_len = 0.

Definition argument_errors : list string :=
  [ "Decompiler not initialized"; "Invalid input bytes"; "Invalid output buffer" ]%string.

(** The lengths [printAssembly] returns fit its return type [int4]. *)
Definition int4_lengths : Prop :=
  forall addr sleigh sleigh' len dumps,
    Wrapper.printAssembly addr sleigh = (sleigh', Ok (len, dumps)) -> len < 2 ^ 31.

(** What one call of [printAssembly] answered: the length returned and the
    calls of [dump] it made. *)
Definition Decode : Type := (Z * list Wrapper.Dump)%type.

(** [calls] are the calls of [printAssembly] that the loop of
    [fission_disassemble] makes when it is entered at [offset] with the
    translator in state [sleigh], in order: each one is made while the offset
    is inside the buffer, at the address [base_addr + offset], in the state
    the call before it left; it returned the length and made the dumps
    listed; only after a positive length is there a next call, at the offset
    moved by that length.  [sleigh'] is the state after the last call. *)
Fixpoint decodes (bytes_len base_addr : Z) (sleigh : Wrapper.Sleigh) (offset : Z)
         (calls : list Decode) (sleigh' : Wrapper.Sleigh) : Prop :=
  match calls with
  | [] => sleigh' = sleigh
  | (len, dumps) :: rest =>
      offset < bytes_len /\
      exists s1,
        Wrapper.printAssembly (wrap64 (base_addr + offset)) sleigh = (s1, Ok (len, dumps)) /\
        (rest <> [] -> 0 < len) /\
        decodes bytes_len base_addr s1 (wrap64 (offset + len)) rest sleigh'
  end.

(** The offset after the calls. *)
Definition offset_after (offset : Z) (calls : list Decode) : Z :=
  fold_left (fun o c => wrap64 (o + fst c)) calls offset.

(** Why the loop made no further call: the last one returned no
    instruction, the count reached 100, or the offset left the buffer. *)
Definition loop_left (bytes_len : Z) (calls : list Decode) : Prop :=
  (exists pre len dumps, calls = pre ++ [(len, dumps)] /\ len <= 0) \/
  List.length calls = 100%nat \/
  bytes_len <= offset_after 0 calls.

(** The lines the calls dumped, appended to [output] in order. *)
Definition dumped (output : string) (calls : list Decode) : string :=
  fold_left Wrapper.dump (concat (map snd calls)) output.

End WrapperProperties.

(* ===================================================================== *)
(** * The C wrapper, debugging revision (no Ghidra behind it)

    The same interface as [Wrapper], with the same handle, file-scope
    variables and argument checks; [fission_decompile] answers a fixed
    text and [fission_disassemble] a hex dump of the first 64 bytes. *)

From Stdlib Require Import DecimalString.

Module DebugWrapper.

(** [out << std::dec << v] for an unsigned value. *)
Definition dec (v : Z) : string :=
  DecimalString.NilZero.string_of_uint (N.to_uint (Z.to_N v)).

(** [fission_decompiler_init(sla_dir)].  [alloc] is what
    [new FissionDecompiler()] and the copy of [sla_dir] into the handle do
    inside the [try] block: they return, or throw.  The flag is set only
    after them, so the [catch] clause leaves it as it was. *)
Definition fission_decompiler_init (sla_dir : option string) (alloc : result unit)
           (G : Wrapper.Globals)
  : Wrapper.Globals * outcome (option Wrapper.FissionDecompiler) :=
  match sla_dir with
  | None => (Wrapper.set_last_error "sla_dir is null" G, Returns None)
  | Some dir =>
      match alloc with
      | Ok _ =>
          (Wrapper.mkGlobals (Wrapper.g_last_error G) true,
           Returns (Some (Wrapper.mkDecompiler dir true)))
      | Throw (std_exception what) =>
          (Wrapper.set_last_error ("Failed to create decompiler: " ++ what) G, Returns None)
      | Throw e => (G, Escapes e)
      end
  end.

(** [if (bytes[j] < 16) output << "0"; output << (int)bytes[j] << " ";]
    with the stream in hexadecimal. *)
Definition put_byte (output : string) (b : byte) : string :=
  let v := Z.of_N (Byte.to_N b) in
  ((if (v <? 16)%Z then output ++ "0" else output) ++ hex v ++ " ")%string.

Definition row_budget (i j : Z) : nat := Z.to_nat (i + 8 - j).
Arguments row_budget : simpl never.

(** [for (size_t j = i; j < i + 8 && j < bytes_len; j++)], entered with
    the current [j]. *)
Equations? dump_row (bytes : list byte) (output : string) (i j : Z) : string
  by wf (row_budget i j) lt :=
dump_row bytes output i j with Z_lt_dec j (i + 8) := {
  | right _ => output
  | left _ with Z_lt_dec j (Z.of_nat (List.length bytes)) := {
    | right _ => output
    | left _ => dump_row bytes (put_byte output (nth (Z.to_nat j) bytes x00)) i (j + 1)
    }
  }.
Proof. unfold row_budget. lia. Qed.

Definition rows_budget (i : Z) : nat := Z.to_nat (64 - i).
Arguments rows_budget : simpl never.

(** [for (size_t i = 0; i < bytes_len && i < 64; i += 8)], entered with
    the current [i] and [addr]. *)
Equations? dump_rows (bytes : list byte) (output : string) (addr i : Z) : string
  by wf (rows_budget i) lt :=
dump_rows bytes output addr i with Z_lt_dec i (Z.of_nat (List.length bytes)) := {
  | right _ => output
  | left _ with Z_lt_dec i 64 := {
    | right _ => output
    | left _ =>
        dump_rows bytes
          (dump_row bytes (output ++ hex addr ++ ":  ") i i ++ nl)
          (wrap64 (addr + 8)) (i + 8)
    }
  }.
Proof. unfold rows_budget. lia. Qed.

(** The three lines that open the dump. *)
Definition disassemble_header (bytes_len base_addr : Z) : string :=
  ("; Disassembly by Fission (Ghidra Sleigh)" ++ nl
   ++ "; Address: 0x" ++ hex base_addr ++ nl
   ++ "; Bytes: " ++ dec bytes_len ++ nl ++ nl)%string.

Definition fission_disassemble (decomp : option Wrapper.FissionDecompiler)
           (bytes : option (list byte)) (base_addr : Z)
           (out_buffer : bool) (out_len : Z) (G : Wrapper.Globals)
  : Wrapper.Globals * Wrapper.Reply :=
  match decomp with
  | None => (Wrapper.set_last_error "Decompiler not initialized" G, (-1, None))
  | Some d =>
  if negb (Wrapper.initialized d)
  then (Wrapper.set_last_error "Decompiler not initialized" G, (-1, None)) else
  match bytes with
  | None => (Wrapper.set_last_error "Invalid input bytes" G, (-1, None))
  | Some [] => (Wrapper.set_last_error "Invalid input bytes" G, (-1, None))
  | Some ((_ :: _) as bs) =>
  if negb out_buffer || (out_len =? 0)
  then (Wrapper.set_last_error "Invalid output buffer" G, (-1, None)) else
  let bytes_len := Z.of_nat (List.length bs) in
  let output := disassemble_header bytes_len base_addr in
  let output := dump_rows bs output base_addr 0 in
  let (n, written) := copy_out output out_len in
  (G, (n, Some written))
  end
  end.

(** The text [fission_decompile] answers. *)
Definition decompile_text (sla_dir : string) (bytes_len base_addr : Z) : string :=
  ("// Decompiled by Fission (Ghidra Sleigh Engine)" ++ nl
   ++ "// Address: 0x" ++ hex base_addr ++ nl
   ++ "// Input: " ++ dec bytes_len ++ " bytes" ++ nl ++ nl
   ++ "void func_" ++ hex base_addr ++ "() {" ++ nl
   ++ "    // TODO: Full Ghidra decompilation" ++ nl
   ++ "    // SLA dir: " ++ sla_dir ++ nl
   ++ "}" ++ nl)%string.

Definition fission_decompile (decomp : option Wrapper.FissionDecompiler)
           (bytes : option (list byte)) (base_addr : Z)
           (out_buffer : bool) (out_len : Z) (G : Wrapper.Globals)
  : Wrapper.Globals * Wrapper.Reply :=
  match decomp with
  | None => (Wrapper.set_last_error "Decompiler not initialized" G, (-1, None))
  | Some d =>
  if negb (Wrapper.initialized d)
  then (Wrapper.set_last_error "Decompiler not initialized" G, (-1, None)) else
  match bytes with
  | None => (Wrapper.set_last_error "Invalid input bytes" G, (-1, None))
  | Some [] => (Wrapper.set_last_error "Invalid input bytes" G, (-1, None))
  | Some ((_ :: _) as bs) =>
  if negb out_buffer || (out_len =? 0)
  then (Wrapper.set_last_error "Invalid output buffer" G, (-1, None)) else
  let (n, written) :=
    copy_out (decompile_text (Wrapper.sla_dir d) (Z.of_nat (List.length bs)) base_addr)
             out_len in
  (G, (n, Some written))
  end
  end.

End DebugWrapper.

(** The strings of a list, one after the other. *)
Definition join (l : list string) : string := fold_right append EmptyString l.

(** The hex dump, said by rows: each row is the address, a colon and two
    spaces, up to eight bytes of two hex digits and a space each, and a
    line feed; the address moves by 8 from row to row; at most [n] rows. *)
Definition render_byte (b : byte) : string :=
  let v := Z.of_N (Byte.to_N b) in
  ((if (v <? 16)%Z then "0" else "") ++ hex v ++ " ")%string.

Fixpoint render_rows (n : nat) (addr : Z) (bytes : list byte) : string :=
  match n, bytes with
  | O, _ => EmptyString
  | _, [] => EmptyString
  | S n', _ =>
      (hex addr ++ ":  "
       ++ join (map render_byte (firstn 8 bytes)) ++ nl
       ++ render_rows n' (wrap64 (addr + 8)) (skipn 8 bytes))%string
  end.

(** Reading two hex digits back. *)
Definition hex_digit (c : ascii) : option Z :=
  let n := Z.of_nat (nat_of_ascii c) in
  if (48 <=? n) && (n <=? 57) then Some (n - 48)
  else if (97 <=? n) && (n <=? 102) then Some (n - 87)
  else None.

Definition parse_byte (s : string) : option Z :=
  match s with
  | String h (String l (String " " EmptyString)) =>
      match hex_digit h, hex_digit l with
      | Some a, Some b => Some (16 * a + b)
      | _, _ => None
      end
  | _ => None
  end.

(* ===================================================================== *)
(** * Facts about the memory images *)

Section MemoryImageFacts.

Lemma wrap64_small (x : Z) : 0 <= x < two64 -> wrap64 x = x.
Proof. intros Hx. unfold wrap64. apply Z.mod_small. exact Hx. Qed.

Lemma wrap64_range (x : Z) : 0 <= wrap64 x < two64.
Proof. unfold wrap64. apply Z.mod_pos_bound. reflexivity. Qed.

Lemma MemoryLoadImage_fill_loop_length img offset n :
  forall i, List.length (MemoryLoadImage.fill_loop img offset i n) = n.
Proof. induction n as [|n IH]; intros i; simpl; [reflexivity | now rewrite IH]. Qed.

Lemma MemoryLoadImage_fill_loop_nth img offset n :
  forall i k, (k < n)%nat ->
    nth k (MemoryLoadImage.fill_loop img offset i n) x00
    = MemoryLoadImage.fill_at img offset (i + Z.of_nat k).
Proof.
  induction n as [|n IH]; intros i k Hk; [lia|].
  destruct k as [|k]; simpl.
  - now rewrite Z.add_0_r.
  - rewrite IH by lia. f_equal. lia.
Qed.

(** The read never fails and always produces [size] bytes. *)
Lemma MemoryLoadImage_loadFill_length img size offset :
  List.length (MemoryLoadImage.loadFill img size offset) = Z.to_nat size.
Proof. apply MemoryLoadImage_fill_loop_length. Qed.

(** When the image ends strictly below the top of the 64-bit address
    space, [loadFill] is the read the interface describes. *)
Lemma MemoryLoadImage_loadFill_spec img size offset :
  0 <= MemoryLoadImage.base_addr_ img ->
  MemoryLoadImage.base_addr_ img
    + Z.of_nat (List.length (MemoryLoadImage.data_ img)) < two64 ->
  read_spec (MemoryLoadImage.data_ img) (MemoryLoadImage.base_addr_ img)
            offset size (MemoryLoadImage.loadFill img size offset).
Proof.
  intros Hbase Htop. split.
  - apply MemoryLoadImage_loadFill_length.
  - intros i Hi. cbv zeta. unfold MemoryLoadImage.loadFill.
    rewrite MemoryLoadImage_fill_loop_nth by lia.
    unfold MemoryLoadImage.fill_at.
    rewrite (wrap64_small (_ + Z.of_nat _)) by lia.
    rewrite Z2Nat.id by lia. reflexivity.
Qed.

Lemma BufferLoadImage_fill_loop_nth img rel n :
  forall i k, (k < n)%nat ->
    nth k (BufferLoadImage.fill_loop img rel i n) x00
    = BufferLoadImage.fill_at img rel (i + Z.of_nat k).
Proof.
  induction n as [|n IH]; intros i k Hk; [lia|].
  destruct k as [|k]; simpl.
  - now rewrite Z.add_0_r.
  - rewrite IH by lia. f_equal. lia.
Qed.

Lemma BufferLoadImage_loadFill_length img size offset :
  List.length (BufferLoadImage.loadFill img size offset) = Z.to_nat size.
Proof.
  unfold BufferLoadImage.loadFill. destruct (offset <? _).
  - apply repeat_length.
  - generalize 0 at 1. induction (Z.to_nat size) as [|n IH]; intros i; simpl;
      [reflexivity | now rewrite IH].
Qed.

(** A read that starts inside or above the buffer and does not run past
    the top of the address space is answered as the interface describes. *)
Lemma BufferLoadImage_loadFill_spec img size offset :
  0 <= BufferLoadImage.m_base_addr img <= offset ->
  offset + size <= two64 ->
  read_spec (BufferLoadImage.m_buffer img) (BufferLoadImage.m_base_addr img)
            offset size (BufferLoadImage.loadFill img size offset).
Proof.
  intros Hbase Htop. split.
  - apply BufferLoadImage_loadFill_length.
  - intros i Hi. cbv zeta. unfold BufferLoadImage.loadFill.
    replace (offset <? BufferLoadImage.m_base_addr img) with false
      by (symmetry; apply Z.ltb_ge; lia).
    rewrite BufferLoadImage_fill_loop_nth by lia.
    unfold BufferLoadImage.fill_at, BufferLoadImage.m_buffer_size.
    rewrite Z2Nat.id, Z.add_0_l by lia.
    rewrite (wrap64_small (offset - _)) by lia.
    rewrite (wrap64_small (offset - _ + i)) by lia.
    rewrite (wrap64_small (offset + i)) by lia.
    replace (BufferLoadImage.m_base_addr img <=? offset + i) with true
      by (symmetry; apply Z.leb_le; lia).
    replace (offset - BufferLoadImage.m_base_addr img + i)
      with (offset + i - BufferLoadImage.m_base_addr img) by lia.
    cbn [andb].
    destruct (Z.ltb_spec (offset + i - BufferLoadImage.m_base_addr img)
                (Z.of_nat (List.length (BufferLoadImage.m_buffer img))));
      destruct (Z.ltb_spec (offset + i)
                  (BufferLoadImage.m_base_addr img
                   + Z.of_nat (List.length (BufferLoadImage.m_buffer img))));
      try lia; reflexivity.
Qed.

(** A read that starts below the buffer is zero-filled whole, also where
    it reaches into the buffer. *)
Lemma BufferLoadImage_loadFill_straddle :
  let img := BufferLoadImage.mk [x41] 4096 in
  BufferLoadImage.loadFill img 2 4095 = [x00; x00] /\
  ~ read_spec (BufferLoadImage.m_buffer img) (BufferLoadImage.m_base_addr img)
              4095 2 (BufferLoadImage.loadFill img 2 4095).
Proof.
  cbv zeta. split; [reflexivity|].
  intros [_ H]. specialize (H 1 ltac:(lia)). vm_compute in H. discriminate H.
Qed.

(** C3 (the code departs from it).  The claim: every read of the memory
    image returns the buffer byte for each address inside
    [[base_address, base_address + len)], zero for every other address, and
    always the requested number of bytes.  Here the code is evaluated on an
    image that occupies the last two bytes of the 64-bit address space:
    [base_addr_ + data_.size()] wraps to 0, no address passes the range
    test, and the two bytes of the image read as zero. *)
Theorem MemoryLoadImage_loadFill_top_of_address_space :
  let img := MemoryLoadImage.mk [x41; x42] (two64 - 2) in
  MemoryLoadImage.loadFill img 2 (two64 - 2) = [x00; x00] /\
  ~ read_spec (MemoryLoadImage.data_ img) (MemoryLoadImage.base_addr_ img)
              (two64 - 2) 2 (MemoryLoadImage.loadFill img 2 (two64 - 2)).
Proof.
  cbv zeta. split; [reflexivity|].
  intros [_ H]. specialize (H 0 ltac:(lia)). vm_compute in H. discriminate H.
Qed.

End MemoryImageFacts.

(* ===================================================================== *)
(** * The service state machine *)

Section ServiceFacts.
Context {E : GhidraEngine}.

Lemma cleanup_Uninitialized s : Uninitialized (Server.cleanup s).
Proof. repeat split. Qed.

Lemma Uninitialized_not_loaded s : Uninitialized s -> not_loaded s.
Proof. intros (_ & _ & H). now left. Qed.

Lemma new_service_Uninitialized : Uninitialized Server.new_service.
Proof. repeat split. Qed.

(** The [try] block starts with [cleanup()] and then overwrites every
    member, so nothing of the old state survives it. *)
Lemma LoadBinary_try_forgets s1 s2 request :
  Server.LoadBinary_try s1 request = Server.LoadBinary_try s2 request.
Proof. reflexivity. Qed.

Lemma LoadBinary_forgets s1 s2 request :
  Server.LoadBinary s1 request = Server.LoadBinary s2 request.
Proof. reflexivity. Qed.

(** The handler succeeds exactly when the two calls into the library
    return; it takes no decision of its own on the request. *)
Lemma LoadBinary_success_iff s request :
  LoadBinaryResponse.success (snd (fst (Server.LoadBinary s request))) = true <->
  exists s', Server.LoadBinary_try s request = (s', Ok tt).
Proof.
  unfold Server.LoadBinary.
  destruct (Server.LoadBinary_try s request) as [s' [[]|e]]; cbn; split.
  - intros _. now exists s'.
  - reflexivity.
  - discriminate.
  - intros [s'' H]. discriminate H.
Qed.

(** The state and the reply LoadBinary leaves, by the value of the
    success flag. *)
Lemma LoadBinary_outcome s request :
  let '(s', reply, _) := Server.LoadBinary s request in
  if LoadBinaryResponse.success reply
  then Loaded request s' /\ LoadBinaryResponse.error_message reply = EmptyString
  else Uninitialized s' /\
       exists s1 e, Server.LoadBinary_try s request = (s1, Throw e) /\
                    LoadBinaryResponse.error_message reply
                      = Server.LoadBinary_message e.
Proof.
  unfold Server.LoadBinary, Server.LoadBinary_try, Loaded, image_of.
  destruct (new_ServerArchitecture _ _) as [a|e] eqn:Hnew; cbn.
  - destruct (init a) as [a' [[]|e]] eqn:Hinit; cbn.
    + split; [|reflexivity]. repeat split. now exists a, a'.
    + split; [repeat split|]. eexists _, e. split; reflexivity.
  - split; [repeat split|]. eexists _, e. split; reflexivity.
Qed.

(** C4.  A failed LoadBinary leaves the service Uninitialized (no loader,
    no architecture, flag cleared) and answers success=false with the
    message of the exception that ended the load; a successful one leaves
    exactly the session of the request (its bytes, its base, the
    architecture built over them); and in both cases the handler hands
    nothing of the old session on: the outcome is the same whatever was
    loaded before. *)
Theorem LoadBinary_cleanup_then_fail s request :
  (let '(s', reply, _) := Server.LoadBinary s request in
   if LoadBinaryResponse.success reply
   then Loaded request s' /\ LoadBinaryResponse.error_message reply = EmptyString
   else Uninitialized s' /\
        exists s1 e, Server.LoadBinary_try s request = (s1, Throw e) /\
                     LoadBinaryResponse.error_message reply
                       = Server.LoadBinary_message e) /\
  (forall s0, Server.LoadBinary s0 request = Server.LoadBinary s request).
Proof.
  split; [apply LoadBinary_outcome | intros s0; apply LoadBinary_forgets].
Qed.

(** Ping answers alive=true in every state and changes nothing. *)
Lemma Ping_alive s :
  Server.Ping s = (s, PingResponse.mk true, OK).
Proof. reflexivity. Qed.

(** C5 (amended).  A DecompileFunction call made while the service is not
    Loaded returns success=false with the error message "Binary not loaded"
    (capital B), no signature, no code and no block, and leaves the state,
    hence the architecture, untouched. *)
Theorem DecompileFunction_requires_loaded s request :
  not_loaded s ->
  Server.DecompileFunction s request = (s, binary_not_loaded_reply, OK).
Proof.
  intros [H|H]; unfold Server.DecompileFunction; rewrite H.
  - reflexivity.
  - now destruct (Server.initialized s).
Qed.

(** After a failed LoadBinary the guard of DecompileFunction fires. *)
Lemma failed_LoadBinary_not_loaded s request :
  LoadBinaryResponse.success (snd (fst (Server.LoadBinary s request))) = false ->
  not_loaded (fst (fst (Server.LoadBinary s request))).
Proof.
  intros Hf. pose proof (LoadBinary_outcome s request) as H.
  destruct (Server.LoadBinary s request) as [[s' reply] st]. cbn in *.
  rewrite Hf in H. apply Uninitialized_not_loaded, H.
Qed.

(** DisassembleRange is an empty handler in every state. *)
Lemma DisassembleRange_stub s request :
  Server.DisassembleRange s request = (s, DisassembleResponse.mk false [] EmptyString, OK).
Proof. reflexivity. Qed.

End ServiceFacts.

Section ServiceExamples.

(** Witness for C5: the freshly constructed service. *)
Lemma DecompileFunction_requires_loaded_witness :
  not_loaded (E := MiniX86.engine) Server.new_service /\
  Server.DecompileFunction (E := MiniX86.engine) Server.new_service
    (DecompileRequest.mk 4096)
  = (Server.new_service, binary_not_loaded_reply, OK).
Proof.
  split.
  - left. reflexivity.
  - apply (DecompileFunction_requires_loaded (E := MiniX86.engine)). left. reflexivity.
Defined.

(** C5 as stated fails: the message does not read "binary not loaded". *)
Lemma DecompileFunction_message_is_capitalised :
  DecompileResponse.error_message
    (snd (fst (Server.DecompileFunction (E := MiniX86.engine) Server.new_service
                 (DecompileRequest.mk 4096))))
  <> "binary not loaded"%string.
Proof. cbn. discriminate. Qed.

(** C6 (the code departs from it).  The claim: LoadBinary with empty
    binary_content fails with a non-empty message and leaves no session.
    Here the handler is run on a zero-length binary with the default
    language: it reports success and keeps a session whose image is
    empty. *)
Theorem LoadBinary_empty_content_accepted :
  let '(s', reply, _) :=
    Server.LoadBinary (E := MiniX86.engine) Server.new_service
      (LoadBinaryRequest.mk [] 4096 "" "") in
  LoadBinaryResponse.success reply = true /\
  LoadBinaryResponse.error_message reply = EmptyString /\
  Server.initialized s' = true /\
  Server.loader s' = Some (MemoryLoadImage.mk [] 4096) /\
  PingResponse.alive (snd (fst (Server.Ping s'))) = true.
Proof. cbn. repeat split. Qed.

(** C9 (the code departs from it).  The claim: without a loaded binary
    DisassembleRange answers with a non-empty error message, and with one
    it returns the instructions of [[start, end)].  Here the handler is run
    in both states: the reply is the default message each time, with an
    empty error message and no instruction. *)
Theorem DisassembleRange_returns_nothing :
  let fresh := Server.new_service (E := MiniX86.engine) in
  let loaded := MiniX86.loaded [x90; xc3] 4096 in
  snd (fst (Server.DisassembleRange fresh (DisassembleRequest.mk 4096 4098)))
  = DisassembleResponse.mk false [] EmptyString /\
  Server.initialized loaded = true /\
  snd (fst (Server.DisassembleRange loaded (DisassembleRequest.mk 4096 4098)))
  = DisassembleResponse.mk false [] EmptyString.
Proof. cbn. repeat split. Qed.

End ServiceExamples.

(* ===================================================================== *)
(** * The basic-block builder *)

Section SweepFacts.
Context {E : GhidraEngine}.

Lemma budget_step n :
  n < Server.MAX_INSTRS -> (S (Server.budget (n + 1)) <= Server.budget n)%nat.
Proof. unfold Server.budget, Server.MAX_INSTRS. lia. Qed.

Lemma stops_find m : stops m = true <-> find m "RET" <> None.
Proof. unfold stops. destruct (find m "RET"); split; congruence. Qed.

Lemma sweep_post_here sp blk cur n r :
  (forall c, r = Ok c -> c = cur) -> sweep_post sp blk cur n blk r.
Proof.
  intros Hr. exists []. rewrite app_nil_r. destruct blk. cbn.
  repeat split; auto using Forall_nil. apply Nat.le_0_l.
Qed.

(** The loop invariant, by induction along the recursion of [sweep]. *)
Lemma sweep_inv sp g blk cur n :
  forall g' blk' r, Server.sweep sp g blk cur n = (g', blk', r) ->
  sweep_post sp blk cur n blk' r.
Proof.
  funelim (Server.sweep sp g blk cur n); intros g0 blk0 r0 Hs.
  - inversion Hs; subst. apply sweep_post_here. congruence.
  - inversion Hs; subst. apply sweep_post_here. discriminate.
  - inversion Hs; subst. apply sweep_post_here. congruence.
  - (* the decoded instruction holds RET: appended, cursor not moved *)
    inversion Hs; subst. pose proof (budget_step _ Hlt) as Hb.
    exists [Instruction.mk cur len (mnem emit) (body emit) []].
    cbn. unfold passed, stops. cbn. rewrite Heq. cbn.
    repeat split; auto.
    + lia.
    + constructor; [cbn; lia | constructor].
    + congruence.
  - (* any other instruction: appended, cursor and count advanced *)
    match goal with IH : forall _ _ _, _ -> sweep_post _ _ _ _ _ _ |- _ =>
      destruct (IH _ _ _ Hs) as (new & Hblk & Hlen & Hcont & Hpos & Hlast & Hend)
    end.
    pose proof (budget_step _ Hlt) as Hb.
    exists (Instruction.mk cur len (mnem emit) (body emit) [] :: new). cbn in Hblk. rewrite <- app_assoc in Hblk. cbn in Hblk.
    split; [exact Hblk|]. cbn. unfold passed, stops. cbn. rewrite Heq. cbn.
    repeat split; auto.
    + lia.
    + constructor; [cbn; lia | exact Hpos].
    + discriminate.
Qed.

(** A decoder that never fails and never shows a RET: every answer is an
    instruction of positive length on which the sweep does not stop. *)
Lemma sweep_never_stopping sp g blk cur n :
  (forall a g0, exists g1 len emit,
      printAssembly a g0 = (g1, Ok (len, emit)) /\ 0 < len /\
      find (mnem emit) "RET" = None) ->
  exists g' new c,
    Server.sweep sp g blk cur n
    = (g',
       BasicBlock.mk (BasicBlock.id blk) (BasicBlock.start_addr blk)
         (BasicBlock.end_addr blk) (BasicBlock.instructions blk ++ new),
       Ok c) /\
    List.length new = Server.budget n.
Proof.
  intros Hdec. funelim (Server.sweep sp g blk cur n).
  - exists g, [], cur. rewrite app_nil_r. destruct pb_block; cbn.
    split; [reflexivity|]. unfold Server.budget. lia.
  - destruct (Hdec cur g) as (g1 & len & emit & Hp & _). congruence.
  - destruct (Hdec cur g) as (g1 & len0 & emit0 & Hp & Hlen & _).
    rewrite Hp in *. match goal with H : (_, _) = (_, _) |- _ => inversion H; subst end. lia.
  - destruct (Hdec cur g) as (g1 & len0 & emit0 & Hp & _ & Hret).
    rewrite Hp in *. match goal with H : (_, _) = (_, _) |- _ => inversion H; subst end.
    congruence.
  - match goal with IH : _ -> exists _ _ _, _ |- _ =>
      destruct (IH Hdec) as (g2 & new & c & Hs & Hlen)
    end.
    exists g2, (Instruction.mk cur len (mnem emit) (body emit) [] :: new), c.
    rewrite Hs. cbn. rewrite <- app_assoc. cbn. split; [reflexivity|].
    rewrite Hlen. unfold Server.budget, Server.MAX_INSTRS in *. lia.
Qed.



End SweepFacts.

(* ===================================================================== *)
(** * DecompileFunction *)

Section DecompileFacts.
Context {E : GhidraEngine}.

Lemma bind_inv {T U : Type} (m : Server.Handler T) (k : T -> Server.Handler U) st st' r :
  Server.bind m k st = (st', r) ->
  (exists st1 v, m st = (st1, Ok v) /\ k v st1 = (st', r)) \/
  (exists e, m st = (st', Throw e) /\ r = Throw e).
Proof.
  unfold Server.bind. destruct (m st) as [st1 [v|e]]; intros H.
  - left. now exists st1, v.
  - right. exists e. inversion H; subst. now split.
Qed.

Lemma keeps_reply_engine {T : Type} (op : Arch -> Arch * result T) :
  keeps_reply (Server.engine op).
Proof.
  intros st st' r. unfold Server.engine. destruct (op (fst st)).
  intros H; inversion H; reflexivity.
Qed.

Lemma keeps_reply_ret {T : Type} (v : T) : keeps_reply (Server.ret v).
Proof. intros st st' r H; inversion H; reflexivity. Qed.

Lemma keeps_reply_bind {T U : Type} (m : Server.Handler T) (k : T -> Server.Handler U) :
  keeps_reply m -> (forall v, keeps_reply (k v)) -> keeps_reply (Server.bind m k).
Proof.
  intros Hm Hk st st' r H.
  destruct (bind_inv _ _ _ _ _ H) as [(st1 & v & H1 & H2) | (e & H1 & _)].
  - rewrite (Hk _ _ _ _ H2). eapply Hm, H1.
  - eapply Hm, H1.
Qed.

Lemma keeps_reply_find_or_create func_addr fname :
  keeps_reply (Server.find_or_create_function func_addr fname).
Proof.
  apply keeps_reply_bind; [apply keeps_reply_engine|].
  intros [fd|]; [apply keeps_reply_ret | apply keeps_reply_engine].
Qed.

Lemma keeps_reply_perform_decompilation fd :
  keeps_reply (Server.perform_decompilation fd).
Proof.
  unfold Server.perform_decompilation.
  repeat (apply keeps_reply_bind; [|intros ?]);
    try apply keeps_reply_engine; try apply keeps_reply_ret.
  destruct v; [apply keeps_reply_engine | apply keeps_reply_ret].
Qed.

(** Generating the C code adds no block, and sets the success flag when
    it runs to its end. *)
Lemma generate_c_code_reply fd st st' r :
  Server.generate_c_code fd st = (st', r) ->
  DecompileResponse.blocks (snd st') = DecompileResponse.blocks (snd st) /\
  (forall u, r = Ok u -> DecompileResponse.success (snd st') = true).
Proof.
  unfold Server.generate_c_code, Server.bind, Server.engine, Server.on_reply.
  destruct (docFunction fd (fst st)) as [g1 [c|e]]; cbn.
  - destruct (getName fd g1) as [g2 [nm|e]]; cbn; intros H; inversion H; subst; cbn;
      split; auto; discriminate.
  - intros H; inversion H; subst; cbn. split; auto; discriminate.
Qed.

(** Generating the disassembly adds exactly one block: the entry block
    run through the sweep, closed with the final cursor when the sweep
    returns. *)
Lemma generate_disassembly_blocks_reply sp func_addr st st' r :
  DecompileResponse.blocks (snd st) = [] ->
  Server.generate_disassembly_blocks sp func_addr st = (st', r) ->
  DecompileResponse.success (snd st') = DecompileResponse.success (snd st) /\
  exists b rs,
    Server.sweep sp (fst st) (entry_block func_addr) func_addr 0 = (fst st', b, rs) /\
    match rs with
    | Ok c => r = Ok tt /\
              DecompileResponse.blocks (snd st') = [BasicBlock.set_end_addr c b]
    | Throw e => r = Throw e /\ DecompileResponse.blocks (snd st') = [b]
    end.
Proof.
  intros Hnil.
  unfold Server.generate_disassembly_blocks, Server.bind, Server.add_blocks,
    Server.on_block, Server.on_reply, Server.run_sweep.
  cbn. rewrite Hnil. cbn.
  change (BasicBlock.set_id func_addr
            (BasicBlock.set_start_addr func_addr BasicBlock.default))
    with (entry_block func_addr).
  destruct (Server.sweep sp (fst st) (entry_block func_addr) func_addr 0)
    as [[g1 b] [c|e]]; cbn; intros H; inversion H; subst; cbn;
    (split; [reflexivity|]); eexists _, _; (split; [reflexivity|]); cbn; auto.
Qed.

(** What the [try] block leaves in a reply that was empty: either no
    block at all (and then no success), or the one block of the sweep. *)
Lemma DecompileFunction_try_reply request g st' r :
  Server.DecompileFunction_try request (g, DecompileResponse.default) = (st', r) ->
  let address := DecompileRequest.address request in
  (DecompileResponse.blocks (snd st') = [] /\
   (forall u, r = Ok u -> DecompileResponse.success (snd st') = false))
  \/
  exists g1 b rs,
    Server.sweep (getDefaultCodeSpace g) g1 (entry_block address) address 0
      = (fst st', b, rs) /\
    match rs with
    | Ok c => r = Ok tt /\ DecompileResponse.success (snd st') = true /\
              DecompileResponse.blocks (snd st') = [BasicBlock.set_end_addr c b]
    | Throw e => r = Throw e /\ DecompileResponse.blocks (snd st') = [b]
    end.
Proof.
  unfold Server.DecompileFunction_try. cbn [fst]. intros H.
  apply bind_inv in H as [(st1 & fd & H1 & H2) | (e & H1 & ->)].
  2:{ left. rewrite (keeps_reply_find_or_create _ _ _ _ _ H1). split; [reflexivity|discriminate]. }
  apply keeps_reply_find_or_create in H1 as R1. cbn in R1.
  destruct fd as [fd|].
  2:{ left. inversion H2; subst; cbn. rewrite R1. split; reflexivity. }
  apply bind_inv in H2 as [(st2 & u2 & H2 & H3) | (e & H2 & ->)].
  2:{ left. rewrite (keeps_reply_perform_decompilation _ _ _ _ H2), R1.
      split; [reflexivity|discriminate]. }
  apply keeps_reply_perform_decompilation in H2 as R2.
  apply bind_inv in H3 as [(st3 & u3 & H3 & H4) | (e & H3 & ->)].
  2:{ left. destruct (generate_c_code_reply _ _ _ _ H3) as [Hb _].
      rewrite Hb, R2, R1. split; [reflexivity|discriminate]. }
  destruct (generate_c_code_reply _ _ _ _ H3) as [Hb Hs].
  assert (Hnil : DecompileResponse.blocks (snd st3) = []) by now rewrite Hb, R2, R1.
  destruct (generate_disassembly_blocks_reply _ _ _ _ _ Hnil H4)
    as (Hsucc & b & rs & Hsw & Hrs).
  right. exists (fst st3), b, rs. split; [exact Hsw|].
  destruct rs as [c|e]; [|exact Hrs].
  destruct Hrs as [-> Hbl]. repeat split; [|exact Hbl].
  rewrite Hsucc. eapply Hs. reflexivity.
Qed.

End DecompileFacts.

Section BlockFacts.
Context {E : GhidraEngine}.

(** A successful call builds its single block by one run of the sweep
    from the entry block, and closes it with the cursor the sweep
    returned. *)
Lemma DecompileFunction_success s request :
  DecompileResponse.success (snd (fst (Server.DecompileFunction s request))) = true ->
  let address := DecompileRequest.address request in
  exists g g1 g' b c,
    Server.arch s = Some g /\
    Server.sweep (getDefaultCodeSpace g) g1 (entry_block address) address 0
      = (g', b, Ok c) /\
    DecompileResponse.blocks (snd (fst (Server.DecompileFunction s request)))
      = [BasicBlock.set_end_addr c b].
Proof.
  unfold Server.DecompileFunction.
  destruct (Server.initialized s); [|discriminate].
  destruct (Server.arch s) as [g|]; [|discriminate].
  destruct (Server.DecompileFunction_try request (g, DecompileResponse.default))
    as [[g' reply'] r] eqn:Htry.
  apply DecompileFunction_try_reply in Htry. cbn [fst snd] in Htry.
  destruct r as [u|e]; cbn; [|discriminate].
  intros Hs. destruct Htry as [[_ Hf] | (g1 & b & rs & Hsw & Hrs)].
  - rewrite (Hf u eq_refl) in Hs. discriminate.
  - destruct rs as [c|e]; [|destruct Hrs; discriminate].
    destruct Hrs as (_ & _ & Hbl). now exists g, g1, g', b, c.
Qed.


(** Whatever the outcome, a reply carries no block or the one block of
    a run of the sweep, closed or not. *)
Lemma DecompileFunction_blocks s request :
  let address := DecompileRequest.address request in
  let blocks := DecompileResponse.blocks (snd (fst (Server.DecompileFunction s request))) in
  blocks = [] \/
  exists sp g1 g' b rs,
    Server.sweep sp g1 (entry_block address) address 0 = (g', b, rs) /\
    (blocks = [b] \/ exists c, blocks = [BasicBlock.set_end_addr c b]).
Proof.
  cbv zeta. unfold Server.DecompileFunction.
  destruct (Server.initialized s); [|now left].
  destruct (Server.arch s) as [g|]; [|now left].
  destruct (Server.DecompileFunction_try request (g, DecompileResponse.default))
    as [[g' reply'] r] eqn:Htry.
  apply DecompileFunction_try_reply in Htry. cbn [fst snd] in Htry.
  assert (Hb : DecompileResponse.blocks
                 (snd (fst (match r with
                            | Ok _ => (Server.set_arch g' s, reply', OK)
                            | Throw e =>
                                (Server.set_arch g' s,
                                 DecompileResponse.set_error_message
                                   (Server.DecompileFunction_message e)
                                   (DecompileResponse.set_success false reply'), OK)
                            end)))
               = DecompileResponse.blocks reply') by now destruct r.
  rewrite Hb. destruct Htry as [[Hnil _] | (g1 & b & rs & Hsw & Hrs)]; [now left|].
  right. exists (getDefaultCodeSpace g), g1, g', b, rs. split; [exact Hsw|].
  destruct rs as [c|e].
  - right. exists c. apply Hrs.
  - left. apply Hrs.
Qed.

Lemma contiguous_hd sp a l i :
  contiguous sp a l -> hd_error l = Some i -> Instruction.address i = a.
Proof. destruct l; cbn; [discriminate|]. intros [H _] [= <-]. exact H. Qed.

Lemma contiguous_next sp l : forall a k i j,
  contiguous sp a l ->
  nth_error l k = Some i -> nth_error l (S k) = Some j ->
  Instruction.address j
  = Address_plus sp (Instruction.address i) (Instruction.length i).
Proof.
  induction l as [|x l IH]; intros a k i j Hc Hi Hj.
  - destruct k; discriminate.
  - destruct Hc as [Hx Hc]. destruct k as [|k].
    + cbn in Hi, Hj. inversion Hi; subst x.
      destruct l as [|y l]; [discriminate|]. cbn in Hj. inversion Hj; subst y.
      destruct Hc as [Hy _]. rewrite Hy, Hx. reflexivity.
    + cbn in Hi. eapply IH; eauto.
Qed.


(** The sweep started on the entry block. *)
Lemma sweep_entry_block sp g address g' b r :
  Server.sweep sp g (entry_block address) address 0 = (g', b, r) ->
  BasicBlock.id b = address /\
  BasicBlock.start_addr b = address /\
  (List.length (BasicBlock.instructions b) <= 200)%nat /\
  contiguous sp address (BasicBlock.instructions b) /\
  Forall (fun i => 0 < Instruction.length i) (BasicBlock.instructions b) /\
  stop_is_last (BasicBlock.instructions b) /\
  (forall c, r = Ok c -> c = end_of sp address (passed (BasicBlock.instructions b))).
Proof.
  intros H. apply sweep_inv in H.
  destruct H as (new & -> & Hlen & Hc & Hp & Hl & He). cbn.
  change (Server.budget 0) with 200%nat in Hlen. auto 10.
Qed.

(** In a flat 64-bit code space, adding the lengths one by one is adding
    their sum modulo 2^64. *)
Lemma end_of_flat sp l :
  (forall x, wrapOffset sp (wrap64 x) = wrap64 x) ->
  forall a, end_of sp (wrap64 a) l = wrap64 (a + sum_lengths l).
Proof.
  intros Hflat. unfold end_of, sum_lengths.
  induction l as [|i l IH]; intros a; cbn.
  - now rewrite Z.add_0_r.
  - unfold Address_plus at 2. rewrite Hflat.
    replace (wrap64 (wrap64 a + Instruction.length i))
      with (wrap64 (a + Instruction.length i))
      by (unfold wrap64; now rewrite Zplus_mod_idemp_l).
    rewrite IH. f_equal. lia.
Qed.

(** A block without RET is passed whole. *)
Lemma passed_all l :
  Forall (fun i => stops (Instruction.mnemonic i) = false) l -> passed l = l.
Proof.
  unfold passed. induction 1 as [|i l Hi _ IH]; cbn; [reflexivity|].
  now rewrite Hi, IH.
Qed.

(** What the code stores in [end_addr]: the start address advanced by the
    length of every instruction of the block except a closing RET. *)
Lemma DecompileFunction_end_addr s request :
  DecompileResponse.success (snd (fst (Server.DecompileFunction s request))) = true ->
  exists g b,
    Server.arch s = Some g /\
    DecompileResponse.blocks (snd (fst (Server.DecompileFunction s request))) = [b] /\
    BasicBlock.end_addr b
    = end_of (getDefaultCodeSpace g) (BasicBlock.start_addr b)
             (passed (BasicBlock.instructions b)).
Proof.
  intros Hs. destruct (DecompileFunction_success s request Hs)
    as (g & g1 & g' & b & c & Hg & Hsw & Hbl).
  apply sweep_entry_block in Hsw as (_ & Hst & _ & _ & _ & _ & He).
  exists g, (BasicBlock.set_end_addr c b). repeat split; auto.
  cbn. rewrite Hst. now apply He.
Qed.

(** When the block holds no RET (the sweep ended on a failed decode or
    on the cap), the end address is the start address advanced by the
    length of every instruction of the block. *)
Lemma DecompileFunction_end_addr_no_RET s request :
  DecompileResponse.success (snd (fst (Server.DecompileFunction s request))) = true ->
  exists g b,
    Server.arch s = Some g /\
    DecompileResponse.blocks (snd (fst (Server.DecompileFunction s request))) = [b] /\
    (Forall (fun i => stops (Instruction.mnemonic i) = false) (BasicBlock.instructions b) ->
     BasicBlock.end_addr b
     = end_of (getDefaultCodeSpace g) (BasicBlock.start_addr b) (BasicBlock.instructions b)).
Proof.
  intros Hs. destruct (DecompileFunction_end_addr s request Hs) as (g & b & Hg & Hb & He).
  exists g, b. repeat split; auto. intros Hno. now rewrite He, passed_all.
Qed.

(** C2.  The sweep loop terminates and its block holds at most 200
    instructions: for every engine, state and request, a reply of
    DecompileFunction has at most one block and no block of more than 200
    instructions; and every run of the loop from a fresh block returns,
    with at most 200 instructions in the block, whatever the decoder
    answers. *)
Theorem sweep_instruction_cap s request sp g address :
  (let '(_, reply, _) := Server.DecompileFunction s request in
   (List.length (DecompileResponse.blocks reply) <= 1)%nat /\
   Forall (fun b => (List.length (BasicBlock.instructions b) <= 200)%nat)
          (DecompileResponse.blocks reply)) /\
  (exists g' b r,
     Server.sweep sp g (entry_block address) address 0 = (g', b, r) /\
     (List.length (BasicBlock.instructions b) <= 200)%nat).
Proof.
  split.
  - pose proof (DecompileFunction_blocks s request) as H. cbv zeta in H.
    destruct (Server.DecompileFunction s request) as [[s' reply] st]. cbn in H.
    destruct H as [-> | (sp' & g1 & g' & b & rs & Hsw & [-> | [c ->]])].
    + split; [cbn; lia | constructor].
    + apply sweep_entry_block in Hsw as (_ & _ & Hlen & _).
      split; [cbn; lia | constructor; [exact Hlen | constructor]].
    + apply sweep_entry_block in Hsw as (_ & _ & Hlen & _).
      split; [cbn; lia | constructor; [exact Hlen | constructor]].
  - destruct (Server.sweep sp g (entry_block address) address 0) as [[g' b] r] eqn:Hsw.
    exists g', b, r. split; [reflexivity|].
    now apply sweep_entry_block in Hsw as (_ & _ & Hlen & _).
Qed.

(** C8.  In the reply of a successful DecompileFunction call the entry
    block (the only block) has an id equal to its start address, which is
    the requested address. *)
Theorem DecompileFunction_block_id s request :
  DecompileResponse.success (snd (fst (Server.DecompileFunction s request))) = true ->
  exists b,
    DecompileResponse.blocks (snd (fst (Server.DecompileFunction s request))) = [b] /\
    BasicBlock.id b = BasicBlock.start_addr b /\
    BasicBlock.start_addr b = DecompileRequest.address request.
Proof.
  intros Hs. destruct (DecompileFunction_success s request Hs)
    as (g & g1 & g' & b & c & Hg & Hsw & Hbl).
  apply sweep_entry_block in Hsw as (Hid & Hst & _).
  exists (BasicBlock.set_end_addr c b). cbn. rewrite Hid, Hst. auto.
Qed.

(** C10 (amended).  The reply of a successful DecompileFunction call has
    exactly one block; the block starts at the requested address; its first
    instruction, if any, is at the start address; and every further
    instruction is at the address of the one before it plus the length of
    the one before it, the sum being taken in the code space of the loaded
    architecture as [Address::operator+] takes it: reduced to 64 bits and
    wrapped by the space.  It is the plain sum of the two numbers whenever
    that sum lies below a bound under which the space wraps nothing. *)
Theorem DecompileFunction_block_contiguous s request :
  DecompileResponse.success (snd (fst (Server.DecompileFunction s request))) = true ->
  exists g b,
    Server.arch s = Some g /\
    DecompileResponse.blocks (snd (fst (Server.DecompileFunction s request))) = [b] /\
    BasicBlock.start_addr b = DecompileRequest.address request /\
    (forall i, hd_error (BasicBlock.instructions b) = Some i ->
               Instruction.address i = BasicBlock.start_addr b) /\
    (forall k i j,
       nth_error (BasicBlock.instructions b) k = Some i ->
       nth_error (BasicBlock.instructions b) (S k) = Some j ->
       Instruction.address j
       = Address_plus (getDefaultCodeSpace g)
                      (Instruction.address i) (Instruction.length i) /\
       Instruction.address j
       = wrapOffset (getDefaultCodeSpace g)
           ((Instruction.address i + Instruction.length i) mod 2 ^ 64) /\
       (forall top,
          top <= 2 ^ 64 ->
          (forall x, 0 <= x < top -> wrapOffset (getDefaultCodeSpace g) x = x) ->
          0 <= Instruction.address i + Instruction.length i < top ->
          Instruction.address j = Instruction.address i + Instruction.length i)).
Proof.
  intros Hs. destruct (DecompileFunction_success s request Hs)
    as (g & g1 & g' & b & c & Hg & Hsw & Hbl).
  apply sweep_entry_block in Hsw as (_ & Hst & _ & Hc & _).
  exists g, (BasicBlock.set_end_addr c b). cbn. rewrite Hst.
  repeat split; auto.
  - intros i Hi. eapply contiguous_hd; eauto.
  - eapply contiguous_next; eauto.
  - erewrite contiguous_next by eauto. reflexivity.
  - intros top Htop Hid Hsum. erewrite contiguous_next by eauto.
    unfold Address_plus, wrap64, two64.
    rewrite Z.mod_small by lia. apply Hid. exact Hsum.
Qed.


End BlockFacts.

(* ===================================================================== *)
(** * The service run on the small engine *)

Section BlockExamples.

(** A never-ending run of decodable, non-RET instructions (unmapped
    memory reads as zero, and zero decodes as a two-byte ADD) fills the
    block up to the cap and no further. *)
Example sweep_reaches_cap :
  map (fun b => List.length (BasicBlock.instructions b))
      (DecompileResponse.blocks (MiniX86.decompile [] 4096 4096)) = [200%nat] /\
  map BasicBlock.end_addr
      (DecompileResponse.blocks (MiniX86.decompile [] 4096 4096)) = [4496].
Proof. split; vm_compute; reflexivity. Qed.

(** C1 (the code departs from it).  The claim: the block's end address
    is its start address plus the lengths of all its instructions, whichever
    way the sweep ended.  Here DecompileFunction is run on a function made
    of NOP and RET at 0x1000: the call succeeds, the block holds both
    instructions, two bytes in all, and the end address is 0x1001, the
    address of the RET, not 0x1002. *)
Theorem DecompileFunction_end_addr_excludes_RET :
  let reply := MiniX86.decompile [x90; xc3] 4096 4096 in
  DecompileResponse.success reply = true /\
  exists b,
    DecompileResponse.blocks reply = [b] /\
    map Instruction.mnemonic (BasicBlock.instructions b) = ["NOP"; "RET"]%string /\
    sum_lengths (BasicBlock.instructions b) = 2 /\
    BasicBlock.start_addr b = 4096 /\
    BasicBlock.end_addr b = 4097 /\
    BasicBlock.end_addr b
    <> BasicBlock.start_addr b + sum_lengths (BasicBlock.instructions b).
Proof.
  cbv zeta. split; [vm_compute; reflexivity|].
  eexists. split; [vm_compute; reflexivity|].
  repeat split; try (vm_compute; reflexivity).
  vm_compute. discriminate.
Qed.

(** On the exits that are not a RET the end address is the start address
    plus the lengths of all instructions of the block. *)
Example DecompileFunction_end_addr_at_cap :
  let reply := MiniX86.decompile [x90; x90] 4096 4096 in
  exists b,
    DecompileResponse.blocks reply = [b] /\
    List.length (BasicBlock.instructions b) = 200%nat /\
    BasicBlock.end_addr b
    = BasicBlock.start_addr b + sum_lengths (BasicBlock.instructions b).
Proof.
  cbv zeta. eexists. split; [vm_compute; reflexivity|].
  split; vm_compute; reflexivity.
Qed.

(** Witness for C8. *)
Lemma DecompileFunction_block_id_witness :
  DecompileResponse.success (MiniX86.decompile [x90; xc3] 4096 4096) = true /\
  exists b,
    DecompileResponse.blocks (MiniX86.decompile [x90; xc3] 4096 4096) = [b] /\
    BasicBlock.id b = BasicBlock.start_addr b /\
    BasicBlock.start_addr b = 4096.
Proof.
  split; [vm_compute; reflexivity|].
  apply (DecompileFunction_block_id (E := MiniX86.engine)
           (MiniX86.loaded [x90; xc3] 4096) (DecompileRequest.mk 4096)).
  vm_compute. reflexivity.
Defined.

(** Witness for C10. *)
Lemma DecompileFunction_block_contiguous_witness :
  DecompileResponse.success (MiniX86.decompile [xeb; x00; x90; xc3] 4096 4096) = true /\
  exists g b,
    Server.arch (MiniX86.loaded [xeb; x00; x90; xc3] 4096) = Some g /\
    DecompileResponse.blocks (MiniX86.decompile [xeb; x00; x90; xc3] 4096 4096) = [b] /\
    BasicBlock.start_addr b = 4096 /\
    (forall i, hd_error (BasicBlock.instructions b) = Some i ->
               Instruction.address i = BasicBlock.start_addr b) /\
    (forall k i j,
       nth_error (BasicBlock.instructions b) k = Some i ->
       nth_error (BasicBlock.instructions b) (S k) = Some j ->
       Instruction.address j
       = Address_plus (E := MiniX86.engine) tt
                      (Instruction.address i) (Instruction.length i) /\
       Instruction.address j
       = wrapOffset (GhidraEngine := MiniX86.engine) tt
           ((Instruction.address i + Instruction.length i) mod 2 ^ 64) /\
       (forall top,
          top <= 2 ^ 64 ->
          (forall x, 0 <= x < top -> wrapOffset (GhidraEngine := MiniX86.engine) tt x = x) ->
          0 <= Instruction.address i + Instruction.length i < top ->
          Instruction.address j = Instruction.address i + Instruction.length i)).
Proof.
  split; [vm_compute; reflexivity|].
  apply (DecompileFunction_block_contiguous (E := MiniX86.engine)
           (MiniX86.loaded [xeb; x00; x90; xc3] 4096) (DecompileRequest.mk 4096)).
  vm_compute. reflexivity.
Defined.

(** C10 as stated fails: the address of an instruction is not always the
    plain sum of the address and length of the one before it.  The function
    requested at 0xFFFFFFFFFFFFFFFE lies outside the image (a RET at 0), so
    the two bytes there read as zero and decode as a two-byte ADD; the
    cursor then wraps around to 0, where the RET is found.  The call
    succeeds, and the RET is at 0, not at 0xFFFFFFFFFFFFFFFE + 2. *)
Lemma DecompileFunction_block_wraps_at_top :
  let reply := MiniX86.decompile [xc3] 0 18446744073709551614 in
  DecompileResponse.success reply = true /\
  ~ (exists b,
       DecompileResponse.blocks reply = [b] /\
       BasicBlock.start_addr b = 18446744073709551614 /\
       (forall i, hd_error (BasicBlock.instructions b) = Some i ->
                  Instruction.address i = BasicBlock.start_addr b) /\
       (forall k i j,
          nth_error (BasicBlock.instructions b) k = Some i ->
          nth_error (BasicBlock.instructions b) (S k) = Some j ->
          Instruction.address j = Instruction.address i + Instruction.length i)).
Proof.
  cbv zeta. split; [vm_compute; reflexivity|].
  intros (b & Hb & _ & _ & Hnext).
  assert (Hblocks : DecompileResponse.blocks (MiniX86.decompile [xc3] 0 18446744073709551614)
                    = [BasicBlock.mk 18446744073709551614 18446744073709551614 0
                         [Instruction.mk 18446744073709551614 2 "ADD" "byte ptr [RAX],AL" [];
                          Instruction.mk 0 1 "RET" "" []]])
    by (vm_compute; reflexivity).
  rewrite Hblocks in Hb. injection Hb as <-.
  specialize (Hnext 0%nat _ _ eq_refl eq_refl). cbn in Hnext. discriminate Hnext.
Qed.



End BlockExamples.

(* ===================================================================== *)
(** * More on the memory images *)

Section MoreImageFacts.

(** Two reads that both answer as the interface describes are equal. *)
Lemma read_spec_unique buffer base address size out1 out2 :
  read_spec buffer base address size out1 ->
  read_spec buffer base address size out2 ->
  out1 = out2.
Proof.
  intros [L1 H1] [L2 H2]. apply (nth_ext _ _ x00 x00); [congruence|].
  intros n Hn. rewrite L1 in Hn.
  assert (Hr : 0 <= Z.of_nat n < size) by lia.
  specialize (H1 _ Hr). specialize (H2 _ Hr).
  cbv zeta in H1, H2. rewrite Nat2Z.id in H1, H2. congruence.
Qed.

(** X1.  [MemoryLoadImage::loadFill] never invents data: whatever the
    image and the read, a byte it returns is zero or is the buffer byte of
    an address that really lies in [[base, base + len)]. *)
Theorem MemoryLoadImage_loadFill_sound img size offset i :
  0 <= MemoryLoadImage.base_addr_ img ->
  0 <= i < size ->
  let b := nth (Z.to_nat i) (MemoryLoadImage.loadFill img size offset) x00 in
  let a := wrap64 (offset + i) in
  b = x00 \/
  (MemoryLoadImage.base_addr_ img <= a
     < MemoryLoadImage.base_addr_ img
       + Z.of_nat (List.length (MemoryLoadImage.data_ img)) /\
   b = nth (Z.to_nat (a - MemoryLoadImage.base_addr_ img))
           (MemoryLoadImage.data_ img) x00).
Proof.
  intros Hbase Hi. cbv zeta. unfold MemoryLoadImage.loadFill.
  rewrite MemoryLoadImage_fill_loop_nth by lia.
  rewrite Z2Nat.id, Z.add_0_l by lia. unfold MemoryLoadImage.fill_at.
  set (top := MemoryLoadImage.base_addr_ img
              + Z.of_nat (List.length (MemoryLoadImage.data_ img))).
  destruct (Z.leb_spec (MemoryLoadImage.base_addr_ img) (wrap64 (offset + i)));
    destruct (Z.ltb_spec (wrap64 (offset + i)) (wrap64 top)); cbn [andb]; auto.
  right. split; [|reflexivity]. split; [assumption|].
  assert (wrap64 top <= top).
  { unfold wrap64. apply Z.mod_le; [unfold top; lia | reflexivity]. }
  lia.
Qed.

(** X2.  When the image ends strictly below the top of the 64-bit address
    space, [MemoryLoadImage::loadFill] is exactly the read the interface
    describes: [size] bytes, the buffer byte inside the image, zero
    outside. *)
Theorem MemoryLoadImage_loadFill_below_top img size offset :
  0 <= MemoryLoadImage.base_addr_ img ->
  MemoryLoadImage.base_addr_ img
    + Z.of_nat (List.length (MemoryLoadImage.data_ img)) < two64 ->
  read_spec (MemoryLoadImage.data_ img) (MemoryLoadImage.base_addr_ img)
            offset size (MemoryLoadImage.loadFill img size offset).
Proof. apply MemoryLoadImage_loadFill_spec. Qed.

(** X3.  [BufferLoadImage::loadFill] is the read the interface describes
    for every read that starts at or above the base and does not run past
    the top of the address space. *)
Theorem BufferLoadImage_loadFill_from_base img size offset :
  0 <= BufferLoadImage.m_base_addr img <= offset ->
  offset + size <= two64 ->
  read_spec (BufferLoadImage.m_buffer img) (BufferLoadImage.m_base_addr img)
            offset size (BufferLoadImage.loadFill img size offset).
Proof. apply BufferLoadImage_loadFill_spec. Qed.

(** X4.  The two load images answer alike: over the same buffer and base,
    a read that starts at or above the base, with the image and the read
    below the top of the address space, returns the same bytes from
    [MemoryLoadImage] and from [BufferLoadImage]. *)
Theorem loadFill_images_agree data base size offset :
  0 <= base <= offset ->
  offset + size <= two64 ->
  base + Z.of_nat (List.length data) < two64 ->
  MemoryLoadImage.loadFill (MemoryLoadImage.mk data base) size offset
  = BufferLoadImage.loadFill (BufferLoadImage.mk data base) size offset.
Proof.
  intros Hb Hs Ht. eapply read_spec_unique.
  - apply (MemoryLoadImage_loadFill_spec (MemoryLoadImage.mk data base));
      cbn [MemoryLoadImage.base_addr_ MemoryLoadImage.data_]; lia.
  - apply (BufferLoadImage_loadFill_spec (BufferLoadImage.mk data base));
      cbn [BufferLoadImage.m_base_addr BufferLoadImage.m_buffer]; lia.
Qed.

Lemma MemoryLoadImage_loadFill_sound_witness :
  let img := MemoryLoadImage.mk [x41; x42] (two64 - 2) in
  (0 <= MemoryLoadImage.base_addr_ img /\ 0 <= 1 < 2) /\
  (nth 1 (MemoryLoadImage.loadFill img 2 (two64 - 2)) x00 = x00 \/
   (MemoryLoadImage.base_addr_ img <= wrap64 (two64 - 2 + 1)
      < MemoryLoadImage.base_addr_ img
        + Z.of_nat (List.length (MemoryLoadImage.data_ img)) /\
    nth 1 (MemoryLoadImage.loadFill img 2 (two64 - 2)) x00
    = nth (Z.to_nat (wrap64 (two64 - 2 + 1) - MemoryLoadImage.base_addr_ img))
          (MemoryLoadImage.data_ img) x00)).
Proof.
  cbv zeta. split; [vm_compute; intuition discriminate|].
  apply (MemoryLoadImage_loadFill_sound
           (MemoryLoadImage.mk [x41; x42] (two64 - 2)) 2 (two64 - 2) 1).
  - vm_compute. discriminate.
  - lia.
Defined.

Lemma MemoryLoadImage_loadFill_below_top_witness :
  let img := MemoryLoadImage.mk [x41; x42] 4096 in
  (0 <= 4096 /\ 4096 + 2 < two64) /\
  read_spec [x41; x42] 4096 4095 4 (MemoryLoadImage.loadFill img 4 4095).
Proof.
  cbv zeta. split; [vm_compute; split; [discriminate | reflexivity]|].
  apply (MemoryLoadImage_loadFill_below_top (MemoryLoadImage.mk [x41; x42] 4096) 4 4095).
  - vm_compute. discriminate.
  - vm_compute. reflexivity.
Defined.

Lemma BufferLoadImage_loadFill_from_base_witness :
  let img := BufferLoadImage.mk [x41; x42] 4096 in
  (0 <= 4096 <= 4097 /\ 4097 + 4 <= two64) /\
  read_spec [x41; x42] 4096 4097 4 (BufferLoadImage.loadFill img 4 4097).
Proof.
  cbv zeta. split; [vm_compute; intuition discriminate|].
  apply (BufferLoadImage_loadFill_from_base (BufferLoadImage.mk [x41; x42] 4096) 4 4097).
  - vm_compute. intuition discriminate.
  - vm_compute. discriminate.
Defined.

Lemma loadFill_images_agree_witness :
  (0 <= 4096 <= 4097 /\ 4097 + 4 <= two64 /\ 4096 + 2 < two64) /\
  MemoryLoadImage.loadFill (MemoryLoadImage.mk [x41; x42] 4096) 4 4097
  = BufferLoadImage.loadFill (BufferLoadImage.mk [x41; x42] 4096) 4 4097.
Proof.
  split; [vm_compute; intuition (discriminate || reflexivity)|].
  apply (loadFill_images_agree [x41; x42] 4096 4 4097).
  - vm_compute. intuition discriminate.
  - vm_compute. discriminate.
  - vm_compute. reflexivity.
Defined.

End MoreImageFacts.

(* ===================================================================== *)
(** * More on the service *)

Section MoreServiceFacts.
Context {E : GhidraEngine}.

(** LoadBinary treats an empty [arch_spec] as the language id
    [x86:LE:64:default], and looks neither at [sla_path] nor at the state
    it is called in. *)
Lemma LoadBinary_default_language s1 s2 content base sla1 sla2 :
  Server.LoadBinary s1 (LoadBinaryRequest.mk content base "" sla1)
  = Server.LoadBinary s2 (LoadBinaryRequest.mk content base "x86:LE:64:default" sla2).
Proof. reflexivity. Qed.

Lemma not_loaded_reply s request :
  not_loaded s ->
  Server.DecompileFunction s request = (s, binary_not_loaded_reply, OK).
Proof.
  intros [H|H]; unfold Server.DecompileFunction; rewrite H.
  - reflexivity.
  - now destruct (Server.initialized s).
Qed.

(** X5.  After a LoadBinary that failed, whatever was loaded before, every
    DecompileFunction is turned away with "Binary not loaded" and leaves
    the state as the failed load left it. *)
Theorem DecompileFunction_after_failed_LoadBinary s load_request request :
  LoadBinaryResponse.success (snd (fst (Server.LoadBinary s load_request))) = false ->
  Server.DecompileFunction (fst (fst (Server.LoadBinary s load_request))) request
  = (fst (fst (Server.LoadBinary s load_request)), binary_not_loaded_reply, OK).
Proof.
  intros Hf. apply not_loaded_reply. now apply failed_LoadBinary_not_loaded.
Qed.

(** DecompileFunction neither loads nor unloads: it leaves the loader,
    the base address and the initialised flag as they are, and the
    architecture pointer null or non-null as it was. *)
Lemma DecompileFunction_session s request :
  let s' := fst (fst (Server.DecompileFunction s request)) in
  Server.loader s' = Server.loader s /\
  Server.base_address s' = Server.base_address s /\
  Server.initialized s' = Server.initialized s /\
  (not_loaded s' <-> not_loaded s).
Proof.
  cbv zeta. unfold Server.DecompileFunction, not_loaded.
  destruct (Server.initialized s) eqn:Hi; [|cbn; rewrite Hi; tauto].
  destruct (Server.arch s) as [g|] eqn:Ha; [|cbn; rewrite Hi, Ha; tauto].
  destruct (Server.DecompileFunction_try request (g, DecompileResponse.default))
    as [[g' reply'] [u|e]]; cbn; rewrite Hi;
    repeat split; try discriminate; intros [H|H]; discriminate H.
Qed.

(** X6.  A session survives any sequence of DecompileFunction calls,
    whatever each analysis did or threw: after the calls the loader, the
    base address and the initialised flag are what they were, and the
    not-loaded guard answers as it did before the first call. *)
Theorem DecompileFunction_keeps_session s requests :
  let s' := decompile_all s requests in
  Server.loader s' = Server.loader s /\
  Server.base_address s' = Server.base_address s /\
  Server.initialized s' = Server.initialized s /\
  (not_loaded s' <-> not_loaded s).
Proof.
  cbv zeta. unfold decompile_all. revert s.
  induction requests as [|r requests IH]; intros s; cbn [fold_left]; [tauto|].
  destruct (IH (fst (fst (Server.DecompileFunction s r)))) as (Hl & Hb & Hi & Hn).
  destruct (DecompileFunction_session s r) as (Hl1 & Hb1 & Hi1 & Hn1).
  rewrite Hl, Hb, Hi, Hn. auto.
Qed.

(** X7.  When the symbol table neither has nor creates a function at the
    requested address, DecompileFunction answers success=false with
    "Failed to create function": no block, no code, no signature, and no
    decompiler action is run. *)
Theorem DecompileFunction_no_function s request g g1 g2 :
  Server.initialized s = true ->
  Server.arch s = Some g ->
  findFunction (DecompileRequest.address request) g = (g1, Ok None) ->
  addFunction (DecompileRequest.address request)
              ("func_" ++ hex (DecompileRequest.address request)) g1 = (g2, Ok None) ->
  Server.DecompileFunction s request
  = (Server.set_arch g2 s,
     DecompileResponse.mk false EmptyString EmptyString [] "Failed to create function",
     OK).
Proof.
  intros Hi Ha Hf Hadd. unfold Server.DecompileFunction. rewrite Hi, Ha.
  unfold Server.DecompileFunction_try, Server.find_or_create_function,
    Server.bind, Server.engine. cbn [fst snd].
  rewrite Hf. cbn [fst snd]. rewrite Hadd. reflexivity.
Qed.



(** The sweep never fills in the raw bytes of an instruction. *)
Lemma sweep_raw_bytes sp g blk cur n :
  forall g' blk' r, Server.sweep sp g blk cur n = (g', blk', r) ->
  Forall (fun i => Instruction.raw_bytes i = []) (BasicBlock.instructions blk) ->
  Forall (fun i => Instruction.raw_bytes i = []) (BasicBlock.instructions blk').
Proof.
  funelim (Server.sweep sp g blk cur n); intros g0 blk0 r0 Hs Hall.
  - inversion Hs; subst. exact Hall.
  - inversion Hs; subst. exact Hall.
  - inversion Hs; subst. exact Hall.
  - inversion Hs; subst. cbn. apply Forall_app. split; [exact Hall | repeat constructor].
  - match goal with IH : forall _ _ _, _ -> _ -> Forall _ _ |- _ =>
      apply (IH _ _ _ Hs)
    end.
    cbn. apply Forall_app. split; [exact Hall | repeat constructor].
Qed.

(** X9.  In every block of every reply, each instruction has a positive
    length (a decode of length 0 or less is never recorded) and no raw
    bytes (the server never fills that field in). *)
Theorem DecompileFunction_instructions_wellformed s request :
  Forall (fun b =>
            Forall (fun i => 0 < Instruction.length i /\ Instruction.raw_bytes i = [])
                   (BasicBlock.instructions b))
         (DecompileResponse.blocks (snd (fst (Server.DecompileFunction s request)))).
Proof.
  pose proof (DecompileFunction_blocks s request) as H. cbv zeta in H.
  destruct H as [-> | (sp' & g1 & g' & b & rs & Hsw & Hb)]; [constructor|].
  assert (Hw : Forall (fun i => 0 < Instruction.length i /\ Instruction.raw_bytes i = [])
                      (BasicBlock.instructions b)).
  { pose proof (sweep_raw_bytes _ _ _ _ _ _ _ _ Hsw (Forall_nil _)) as Hraw.
    apply sweep_entry_block in Hsw as (_ & _ & _ & _ & Hpos & _).
    rewrite Forall_forall in *. intros i Hi. split; auto. }
  destruct Hb as [-> | [c ->]]; constructor; auto.
Qed.

(** X10.  Against a decoder that never fails and never shows a RET, a
    successful DecompileFunction returns a block of exactly 200
    instructions: the cap is what ends the sweep. *)
Theorem DecompileFunction_cap_reached s request :
  never_stops ->
  DecompileResponse.success (snd (fst (Server.DecompileFunction s request))) = true ->
  exists b,
    DecompileResponse.blocks (snd (fst (Server.DecompileFunction s request))) = [b] /\
    List.length (BasicBlock.instructions b) = 200%nat.
Proof.
  intros Hdec Hs. destruct (DecompileFunction_success s request Hs)
    as (g & g1 & g' & b & c & Hg & Hsw & Hbl).
  destruct (sweep_never_stopping (getDefaultCodeSpace g) g1
              (entry_block (DecompileRequest.address request))
              (DecompileRequest.address request) 0 Hdec)
    as (g2 & new & c2 & Hsw2 & Hlen).
  rewrite Hsw in Hsw2. inversion Hsw2; subst.
  eexists. split; [exact Hbl|]. cbn. exact Hlen.
Qed.

Lemma sweep_undecodable sp g blk cur n :
  undecodable_at cur ->
  exists g', Server.sweep sp g blk cur n = (g', blk, Ok cur).
Proof.
  intros Hu. funelim (Server.sweep sp g blk cur n);
    destruct (Hu g) as (g1 & len0 & emit0 & Hp & Hlen).
  all: try (rewrite Hp in *).
  - now exists g.
  - match goal with H : (_, Ok _) = (_, Throw _) |- _ => discriminate H end.
  - eexists. reflexivity.
  - match goal with H : (_, Ok _) = (_, Ok _) |- _ => inversion H; subst end. lia.
  - match goal with H : (_, Ok _) = (_, Ok _) |- _ => inversion H; subst end. lia.
Qed.

(** X11.  When the decoder resolves nothing at the requested address, a
    successful DecompileFunction returns one empty block whose id, start
    and end are all the requested address. *)
Theorem DecompileFunction_undecodable_entry s request :
  undecodable_at (DecompileRequest.address request) ->
  DecompileResponse.success (snd (fst (Server.DecompileFunction s request))) = true ->
  DecompileResponse.blocks (snd (fst (Server.DecompileFunction s request)))
  = [BasicBlock.mk (DecompileRequest.address request) (DecompileRequest.address request)
                   (DecompileRequest.address request) []].
Proof.
  intros Hu Hs. destruct (DecompileFunction_success s request Hs)
    as (g & g1 & g' & b & c & Hg & Hsw & Hbl).
  destruct (sweep_undecodable (getDefaultCodeSpace g) g1
              (entry_block (DecompileRequest.address request))
              (DecompileRequest.address request) 0 Hu) as (g2 & Hsw2).
  rewrite Hsw in Hsw2. inversion Hsw2; subst. exact Hbl.
Qed.

End MoreServiceFacts.

Section MoreBlockFacts.
Context {E : GhidraEngine}.

Lemma end_of_app sp a l1 l2 :
  end_of sp a (l1 ++ l2) = end_of sp (end_of sp a l1) l2.
Proof. unfold end_of. apply fold_left_app. Qed.

Lemma contiguous_last sp l : forall a i,
  contiguous sp a (l ++ [i]) -> Instruction.address i = end_of sp a l.
Proof.
  induction l as [|x l IH]; intros a i H; cbn in H.
  - now destruct H.
  - destruct H as [_ H]. now apply IH in H.
Qed.

Lemma passed_closed l : forall i,
  stop_is_last (l ++ [i]) -> stops (Instruction.mnemonic i) = true ->
  passed (l ++ [i]) = l.
Proof.
  induction l as [|x l IH]; intros i H Hi.
  - unfold passed. cbn. now rewrite Hi.
  - cbn in H. destruct H as [Hx H].
    unfold passed. cbn. destruct (stops (Instruction.mnemonic x)) eqn:Hsx.
    + specialize (Hx eq_refl). destruct l; discriminate Hx.
    + cbn. f_equal. now apply IH.
Qed.

(** X12.  When the block of a successful reply ends with a RET, its end
    address is the address of that RET, not the address after it. *)
Theorem DecompileFunction_end_addr_at_RET s request :
  DecompileResponse.success (snd (fst (Server.DecompileFunction s request))) = true ->
  exists b,
    DecompileResponse.blocks (snd (fst (Server.DecompileFunction s request))) = [b] /\
    forall pre i,
      BasicBlock.instructions b = pre ++ [i] ->
      stops (Instruction.mnemonic i) = true ->
      BasicBlock.end_addr b = Instruction.address i.
Proof.
  intros Hs. destruct (DecompileFunction_success s request Hs)
    as (g & g1 & g' & b & c & Hg & Hsw & Hbl).
  apply sweep_entry_block in Hsw as (_ & _ & _ & Hc & _ & Hl & He).
  exists (BasicBlock.set_end_addr c b). split; [exact Hbl|].
  cbn. intros pre i Heq Hi. rewrite Heq in *.
  rewrite (He c eq_refl), passed_closed by assumption.
  symmetry. now apply contiguous_last.
Qed.

(** X13.  In a flat 64-bit code space, when the block of a successful
    reply holds no RET (the sweep ended on a failed decode or on the cap),
    its end address is the start address plus the lengths of all its
    instructions, modulo 2^64. *)
Theorem DecompileFunction_end_addr_flat s request :
  flat64 ->
  0 <= DecompileRequest.address request < two64 ->
  DecompileResponse.success (snd (fst (Server.DecompileFunction s request))) = true ->
  exists b,
    DecompileResponse.blocks (snd (fst (Server.DecompileFunction s request))) = [b] /\
    (Forall (fun i => stops (Instruction.mnemonic i) = false) (BasicBlock.instructions b) ->
     BasicBlock.end_addr b
     = wrap64 (BasicBlock.start_addr b + sum_lengths (BasicBlock.instructions b))).
Proof.
  intros Hflat Ha Hs. destruct (DecompileFunction_success s request Hs)
    as (g & g1 & g' & b & c & Hg & Hsw & Hbl).
  apply sweep_entry_block in Hsw as (_ & Hst & _ & _ & _ & _ & He).
  exists (BasicBlock.set_end_addr c b). split; [exact Hbl|].
  cbn. intros Hno. rewrite (He c eq_refl), passed_all, Hst by assumption.
  rewrite <- (wrap64_small (DecompileRequest.address request)) at 1 by assumption.
  apply end_of_flat. intros x. apply Hflat.
Qed.

Lemma sum_lengths_nonneg l :
  Forall (fun i => 0 < Instruction.length i) l -> 0 <= sum_lengths l.
Proof.
  unfold sum_lengths. induction 1 as [|i l Hi _ IH]; cbn; lia.
Qed.

Lemma contiguous_exact sp l :
  (forall x, wrapOffset sp (wrap64 x) = wrap64 x) ->
  Forall (fun i => 0 < Instruction.length i) l ->
  forall a, 0 <= a -> a + sum_lengths l <= two64 ->
  contiguous sp a l ->
  forall k i, nth_error l k = Some i ->
    Instruction.address i = a + sum_lengths (firstn k l).
Proof.
  intros Hflat Hpos. induction Hpos as [|x l Hx Hpos IH]; intros a Ha Hsum Hc k i Hk.
  - destruct k; discriminate.
  - destruct Hc as [Hax Hc]. destruct k as [|k]; cbn in Hk.
    + inversion Hk; subst. unfold sum_lengths. cbn. lia.
    + assert (Hl : 0 < Instruction.length i).
      { apply nth_error_In in Hk. rewrite Forall_forall in Hpos. auto. }
      assert (Hsplit : sum_lengths (x :: l) = Instruction.length x + sum_lengths l)
        by reflexivity.
      assert (Hge : Instruction.length i <= sum_lengths l).
      { clear - Hk Hpos. revert k Hk. induction Hpos as [|y l Hy Hpos IH]; intros k Hk.
        - destruct k; discriminate.
        - unfold sum_lengths in *. cbn. destruct k; cbn in Hk.
          + inversion Hk; subst.
            pose proof (sum_lengths_nonneg l Hpos). unfold sum_lengths in *. lia.
          + specialize (IH _ Hk). lia. }
      unfold Address_plus in Hc. rewrite Hflat, wrap64_small in Hc by lia.
      rewrite (IH (a + Instruction.length x) ltac:(lia) ltac:(lia) Hc k i Hk).
      change (firstn (S k) (x :: l)) with (x :: firstn k l).
      unfold sum_lengths. cbn. lia.
Qed.

(** X14.  In a flat 64-bit code space, when the block of a successful
    reply does not run past the top of the address space, every
    instruction sits exactly at the requested address plus the lengths of
    the instructions before it: the block has no gap and no overlap. *)
Theorem DecompileFunction_instruction_addresses s request :
  flat64 ->
  0 <= DecompileRequest.address request ->
  DecompileResponse.success (snd (fst (Server.DecompileFunction s request))) = true ->
  exists b,
    DecompileResponse.blocks (snd (fst (Server.DecompileFunction s request))) = [b] /\
    (DecompileRequest.address request + sum_lengths (BasicBlock.instructions b) <= two64 ->
     forall k i,
       nth_error (BasicBlock.instructions b) k = Some i ->
       Instruction.address i
       = DecompileRequest.address request
         + sum_lengths (firstn k (BasicBlock.instructions b))).
Proof.
  intros Hflat Ha Hs. destruct (DecompileFunction_success s request Hs)
    as (g & g1 & g' & b & c & Hg & Hsw & Hbl).
  apply sweep_entry_block in Hsw as (_ & _ & _ & Hc & Hpos & _).
  exists (BasicBlock.set_end_addr c b). split; [exact Hbl|].
  cbn. intros Hsum k i Hk.
  eapply contiguous_exact; eauto.
Qed.

End MoreBlockFacts.

Section MoreServiceExamples.

Lemma DecompileFunction_after_failed_LoadBinary_witness :
  let load := LoadBinaryRequest.mk [x90; xc3] 4096 "arm" "" in
  let s := MiniX86.loaded [xc3] 0 in
  LoadBinaryResponse.success (snd (fst (Server.LoadBinary s load))) = false /\
  Server.DecompileFunction (fst (fst (Server.LoadBinary s load))) (DecompileRequest.mk 4096)
  = (fst (fst (Server.LoadBinary s load)), binary_not_loaded_reply, OK).
Proof.
  cbv zeta. split; [vm_compute; reflexivity|].
  apply (DecompileFunction_after_failed_LoadBinary (E := MiniX86.engine)
           (MiniX86.loaded [xc3] 0)
           (LoadBinaryRequest.mk [x90; xc3] 4096 "arm" "") (DecompileRequest.mk 4096)).
  vm_compute. reflexivity.
Defined.

Lemma DecompileFunction_no_function_witness :
  let E := Fake.engine Fake.nop_sled false in
  let s := Fake.loaded Fake.nop_sled false in
  (Server.initialized s = true /\ Server.arch s = Some tt /\
   findFunction (GhidraEngine := E) 4096 tt = (tt, Ok None) /\
   addFunction (GhidraEngine := E) 4096 ("func_" ++ hex 4096) tt = (tt, Ok None)) /\
  Server.DecompileFunction (E := E) s (DecompileRequest.mk 4096)
  = (Server.set_arch (E := E) tt s,
     DecompileResponse.mk false EmptyString EmptyString [] "Failed to create function",
     OK).
Proof.
  cbv zeta. split; [repeat split|].
  apply (DecompileFunction_no_function (E := Fake.engine Fake.nop_sled false)
           (Fake.loaded Fake.nop_sled false) (DecompileRequest.mk 4096) tt tt tt);
    reflexivity.
Defined.


Lemma nop_sled_never_stops : never_stops (E := Fake.engine Fake.nop_sled true).
Proof.
  intros a g0. exists tt, 1, (mkEmit "NOP" "").
  split; [destruct g0; reflexivity|]. split; [lia | reflexivity].
Defined.

Lemma DecompileFunction_cap_reached_witness :
  let E := Fake.engine Fake.nop_sled true in
  let s := Fake.loaded Fake.nop_sled true in
  (never_stops (E := E) /\
   DecompileResponse.success
     (snd (fst (Server.DecompileFunction (E := E) s (DecompileRequest.mk 4096)))) = true) /\
  exists b,
    DecompileResponse.blocks
      (snd (fst (Server.DecompileFunction (E := E) s (DecompileRequest.mk 4096)))) = [b] /\
    List.length (BasicBlock.instructions b) = 200%nat.
Proof.
  cbv zeta. split; [split; [exact nop_sled_never_stops | vm_compute; reflexivity]|].
  apply (DecompileFunction_cap_reached (E := Fake.engine Fake.nop_sled true)
           (Fake.loaded Fake.nop_sled true) (DecompileRequest.mk 4096)).
  - exact nop_sled_never_stops.
  - vm_compute. reflexivity.
Defined.

Lemma undecodable_everywhere a :
  undecodable_at (E := Fake.engine Fake.undecodable true) a.
Proof.
  intros g0. exists tt, 0, (mkEmit "" ""). split; [destruct g0; reflexivity | lia].
Defined.

Lemma DecompileFunction_undecodable_entry_witness :
  let E := Fake.engine Fake.undecodable true in
  let s := Fake.loaded Fake.undecodable true in
  (undecodable_at (E := E) 4096 /\
   DecompileResponse.success
     (snd (fst (Server.DecompileFunction (E := E) s (DecompileRequest.mk 4096)))) = true) /\
  DecompileResponse.blocks
    (snd (fst (Server.DecompileFunction (E := E) s (DecompileRequest.mk 4096))))
  = [BasicBlock.mk 4096 4096 4096 []].
Proof.
  cbv zeta. split; [split; [apply undecodable_everywhere | vm_compute; reflexivity]|].
  apply (DecompileFunction_undecodable_entry (E := Fake.engine Fake.undecodable true)
           (Fake.loaded Fake.undecodable true) (DecompileRequest.mk 4096)).
  - apply undecodable_everywhere.
  - vm_compute. reflexivity.
Defined.

Lemma DecompileFunction_end_addr_at_RET_witness :
  DecompileResponse.success (MiniX86.decompile [x90; xc3] 4096 4096) = true /\
  exists b,
    DecompileResponse.blocks (MiniX86.decompile [x90; xc3] 4096 4096) = [b] /\
    forall pre i,
      BasicBlock.instructions b = pre ++ [i] ->
      stops (Instruction.mnemonic i) = true ->
      BasicBlock.end_addr b = Instruction.address i.
Proof.
  split; [vm_compute; reflexivity|].
  apply (DecompileFunction_end_addr_at_RET (E := MiniX86.engine)
           (MiniX86.loaded [x90; xc3] 4096) (DecompileRequest.mk 4096)).
  vm_compute. reflexivity.
Defined.

Lemma MiniX86_flat64 : flat64 (E := MiniX86.engine).
Proof. intros sp x. reflexivity. Defined.

Lemma DecompileFunction_end_addr_flat_witness :
  (flat64 (E := MiniX86.engine) /\ 0 <= 4096 < two64 /\
   DecompileResponse.success (MiniX86.decompile [x90; xcc] 4096 4096) = true) /\
  exists b,
    DecompileResponse.blocks (MiniX86.decompile [x90; xcc] 4096 4096) = [b] /\
    (Forall (fun i => stops (Instruction.mnemonic i) = false) (BasicBlock.instructions b) ->
     BasicBlock.end_addr b
     = wrap64 (BasicBlock.start_addr b + sum_lengths (BasicBlock.instructions b))).
Proof.
  split.
  - split; [exact MiniX86_flat64|]. split; [vm_compute; split; [discriminate|reflexivity]|].
    vm_compute. reflexivity.
  - apply (DecompileFunction_end_addr_flat (E := MiniX86.engine)
             (MiniX86.loaded [x90; xcc] 4096) (DecompileRequest.mk 4096)).
    + exact MiniX86_flat64.
    + vm_compute. split; [discriminate|reflexivity].
    + vm_compute. reflexivity.
Defined.

Lemma DecompileFunction_instruction_addresses_witness :
  (flat64 (E := MiniX86.engine) /\ 0 <= 4096 /\
   DecompileResponse.success (MiniX86.decompile [xeb; x00; x90; xc3] 4096 4096) = true) /\
  exists b,
    DecompileResponse.blocks (MiniX86.decompile [xeb; x00; x90; xc3] 4096 4096) = [b] /\
    (4096 + sum_lengths (BasicBlock.instructions b) <= two64 ->
     forall k i,
       nth_error (BasicBlock.instructions b) k = Some i ->
       Instruction.address i = 4096 + sum_lengths (firstn k (BasicBlock.instructions b))).
Proof.
  split.
  - split; [exact MiniX86_flat64|]. split; [vm_compute; discriminate|].
    vm_compute. reflexivity.
  - apply (DecompileFunction_instruction_addresses (E := MiniX86.engine)
             (MiniX86.loaded [xeb; x00; x90; xc3] 4096) (DecompileRequest.mk 4096)).
    + exact MiniX86_flat64.
    + vm_compute. discriminate.
    + vm_compute. reflexivity.
Defined.

End MoreServiceExamples.

(* ===================================================================== *)
(** * Start-up paths *)

Section PathFacts.

Lemma append_assoc (s1 s2 s3 : string) :
  ((s1 ++ s2) ++ s3 = s1 ++ (s2 ++ s3))%string.
Proof. induction s1 as [|c s1 IH]; cbn; [reflexivity | now rewrite IH]. Qed.

Lemma find_last_of_none s chars :
  Paths.find_last_of s chars = None ->
  forallb (fun c => negb (Paths.one_of chars c)) (list_ascii_of_string s) = true.
Proof.
  induction s as [|c s IH]; cbn; [reflexivity|].
  destruct (Paths.find_last_of s chars); [discriminate|].
  destruct (Paths.one_of chars c); [discriminate|]. intros _. cbn. now apply IH.
Qed.

Lemma find_last_of_split s chars : forall n,
  Paths.find_last_of s chars = Some n ->
  exists c rest,
    s = (substring 0 n s ++ String c rest)%string /\
    Paths.one_of chars c = true /\
    Paths.find_last_of rest chars = None.
Proof.
  induction s as [|c s IH]; intros n H; cbn in H; [discriminate|].
  destruct (Paths.find_last_of s chars) as [m|] eqn:Hm.
  - inversion H; subst. destruct (IH m eq_refl) as (c' & rest & Hs & Hc & Hr).
    exists c', rest. cbn. split; [|auto]. now rewrite <- Hs.
  - destruct (Paths.one_of chars c) eqn:Hc; [|discriminate]. inversion H; subst.
    exists c, s. cbn. auto.
Qed.

(** X15.  [getExecutableDir] cuts the executable's path at its last
    slash: either the path has no slash (or readlink failed) and the answer
    is ".", or the path is the answer, a slash, and a file name that
    contains no slash. *)
Theorem getExecutableDir_splits_path readlink :
  let dir := Paths.getExecutableDir readlink in
  (dir = "."%string /\
   forall exePath, readlink = Some exePath -> Paths.find_last_of exePath "/" = None)
  \/
  (exists exePath name,
     readlink = Some exePath /\
     exePath = (dir ++ "/" ++ name)%string /\
     Paths.find_last_of name "/" = None).
Proof.
  cbv zeta. destruct readlink as [exePath|]; cbn.
  - unfold Paths.dir_of. destruct (Paths.find_last_of exePath "/") as [n|] eqn:Hn.
    + right. destruct (find_last_of_split _ _ _ Hn) as (c & rest & Hs & Hc & Hr).
      exists exePath, rest. split; [reflexivity|]. split; [|exact Hr].
      unfold Paths.one_of in Hc. cbn in Hc. rewrite orb_false_r in Hc.
      apply Ascii.eqb_eq in Hc. subst c. exact Hs.
    + left. split; [reflexivity|]. intros p [= <-]. exact Hn.
  - left. split; [reflexivity|]. discriminate.
Qed.

Lemma search_first good paths b0 l0 :
  forall b l, Paths.search good paths b0 l0 = (b, l) ->
  (b = b0 /\ l = l0 /\
   Forall (fun p => good (snd p ++ "/x86.ldefs")%string = false) paths)
  \/
  (exists before after,
     paths = before ++ (b, l) :: after /\
     good (l ++ "/x86.ldefs")%string = true /\
     Forall (fun p => good (snd p ++ "/x86.ldefs")%string = false) before).
Proof.
  induction paths as [|p rest IH]; intros b l H; cbn in H.
  - inversion H; subst. left. auto.
  - destruct (good (snd p ++ "/x86.ldefs")%string) eqn:Hg.
    + inversion H; subst. right. exists [], rest. destruct p. cbn in *. auto.
    + destruct (IH _ _ H) as [(-> & -> & Hall) | (before & after & -> & Hgl & Hall)].
      * left. auto.
      * right. exists (p :: before), after. auto.
Qed.

(** X16.  The constructor picks the first of its three candidate places
    whose [x86.ldefs] opens, in the order build/Release, build, deployed:
    the languages directory it keeps is always the base directory followed
    by "/languages", its [x86.ldefs] opens, and no earlier candidate's
    does; it gives up exactly when none of the three opens. *)
Theorem find_languages_first_match good exeDir :
  match Paths.find_languages good exeDir with
  | Some (baseDir, langDir) =>
      langDir = (baseDir ++ "/languages")%string /\
      good (langDir ++ "/x86.ldefs")%string = true /\
      exists before after,
        Paths.searchPaths exeDir = before ++ (baseDir, langDir) :: after /\
        Forall (fun p => good (snd p ++ "/x86.ldefs")%string = false) before
  | None =>
      Forall (fun p => good (snd p ++ "/x86.ldefs")%string = false)
             (Paths.searchPaths exeDir)
  end.
Proof.
  unfold Paths.find_languages.
  destruct (Paths.search good (Paths.searchPaths exeDir) "" "") as [b l] eqn:Hs.
  apply search_first in Hs.
  destruct Hs as [(-> & -> & Hall) | (before & after & Heq & Hg & Hall)].
  - exact Hall.
  - assert (Hin : In (b, l) (Paths.searchPaths exeDir))
      by (rewrite Heq; apply in_elt).
    assert (Hl : l = (b ++ "/languages")%string /\ empty l = false).
    { clear - Hin. cbn in Hin.
      destruct Hin as [H|[H|[H|[]]]]; injection H as <- <-; split;
        try (rewrite append_assoc; reflexivity); try reflexivity;
        destruct exeDir; reflexivity. }
    destruct Hl as [Hl He]. rewrite He. repeat split; auto.
    exists before, after. auto.
Qed.

End PathFacts.

(* ===================================================================== *)
(** * The C wrapper *)

Section WrapperFacts.
Context {L : Wrapper.SleighLib}.

Lemma substring_length s : forall n,
  String.length (substring 0 n s) = Nat.min n (String.length s).
Proof.
  induction s as [|c s IH]; intros [|n]; cbn; try reflexivity. now rewrite IH.
Qed.

Lemma to_int_small x : 0 <= x < 2 ^ 31 -> to_int x = x.
Proof.
  intros Hx. unfold to_int. cbv zeta. rewrite Z.mod_small by lia.
  destruct (Z.ltb_spec x (2 ^ 31)); lia.
Qed.

(** What [copy_out] writes fits the buffer with its NUL, and the count
    returned is the number of characters written whenever the buffer is no
    larger than [INT_MAX + 1]. *)
Lemma copy_out_fits result out_len :
  0 < out_len ->
  let (n, written) := copy_out result out_len in
  Z.of_nat (String.length written) < out_len /\
  Z.of_nat (String.length written)
  = Z.min (Z.of_nat (String.length result)) (out_len - 1) /\
  (out_len <= 2 ^ 31 -> n = Z.of_nat (String.length written)).
Proof.
  intros Hlen. unfold copy_out. cbv zeta. rewrite substring_length.
  set (m := Z.min (Z.of_nat (String.length result)) (out_len - 1)).
  assert (Hm : Z.of_nat (Nat.min (Z.to_nat m) (String.length result)) = m)
    by (unfold m; lia).
  rewrite Hm. repeat split; [unfold m; lia|].
  intros Hmax. apply to_int_small. unfold m. lia.
Qed.

(** X17.  A call of [fission_disassemble] or [fission_decompile] with a
    refused argument (null or uninitialised handle, null or empty input,
    null or zero-sized output buffer) returns -1, writes nothing, never
    reaches the library, and leaves one of the three argument messages for
    [fission_get_error] to return. *)
Theorem wrapper_refuses_invalid_arguments decomp bytes base_addr out_buffer out_len G :
  invalid_arguments decomp bytes out_buffer out_len ->
  exists msg,
    In msg argument_errors /\
    Wrapper.fission_disassemble decomp bytes base_addr out_buffer out_len G
    = (Wrapper.set_last_error msg G, Returns (-1, None)) /\
    Wrapper.fission_decompile decomp bytes base_addr out_buffer out_len G
    = (Wrapper.set_last_error msg G, Returns (-1, None)) /\
    Wrapper.fission_get_error (Wrapper.set_last_error msg G) = Some msg.
Proof.
  intros Hinv. unfold Wrapper.fission_disassemble, Wrapper.fission_decompile,
    Wrapper.fail, argument_errors.
  destruct decomp as [d|]; [|eexists; cbn; eauto 6].
  destruct (Wrapper.initialized d) eqn:Hd; cbn [negb]; [|eexists; cbn; eauto 6].
  destruct bytes as [[|b bs]|]; [eexists; cbn; eauto 6 | | eexists; cbn; eauto 6].
  destruct out_buffer; cbn [negb orb].
  - destruct (Z.eqb_spec out_len 0) as [->|Hne]; [eexists; cbn; eauto 7|].
    exfalso. destruct Hinv as [H|[(d' & H & Hd')|[H|[H|[H|H]]]]]; try discriminate; auto.
    inversion H; subst. congruence.
  - eexists; cbn; eauto 7.
Qed.

Lemma fail_contract msg (G G' : Wrapper.Globals) n w :
  empty msg = false ->
  Wrapper.fail msg G = (G', @Returns Wrapper.Reply (n, w)) ->
  n = -1 /\ w = None /\
  Wrapper.g_library_initialized G' = Wrapper.g_library_initialized G /\
  exists m, Wrapper.fission_get_error G' = Some m.
Proof.
  intros He H. unfold Wrapper.fail in H. inversion H; subst.
  repeat split. exists msg. unfold Wrapper.fission_get_error. cbn. now rewrite He.
Qed.

Lemma copy_contract text out_len (G G' : Wrapper.Globals) n w :
  0 < out_len ->
  (let (n0, written) := copy_out text out_len in
   (G, @Returns Wrapper.Reply (n0, Some written)))
  = (G', Returns (n, w)) ->
  exists written,
    w = Some written /\ G' = G /\
    Z.of_nat (String.length written) < out_len /\
    (out_len <= 2 ^ 31 -> n = Z.of_nat (String.length written)).
Proof.
  intros Hpos H. pose proof (copy_out_fits text out_len Hpos) as Hc.
  destruct (copy_out text out_len) as [n0 written]. inversion H; subst.
  exists written. tauto.
Qed.

(** X18.  The return contract of [fission_disassemble] and
    [fission_decompile].  A call that returns either returns -1, writes
    nothing and sets a non-empty error message; or writes to the buffer,
    in which case the characters written and their NUL fit in [out_len],
    the last error is left as it was (a success does not clear it), and,
    for a buffer of at most 2^31 bytes, the value returned is the number of
    characters written. *)
Theorem wrapper_return_contract decomp bytes base_addr out_buffer out_len G G' n w :
  0 <= out_len ->
  Wrapper.fission_disassemble decomp bytes base_addr out_buffer out_len G
    = (G', Returns (n, w)) \/
  Wrapper.fission_decompile decomp bytes base_addr out_buffer out_len G
    = (G', Returns (n, w)) ->
  (n = -1 /\ w = None /\
   Wrapper.g_library_initialized G' = Wrapper.g_library_initialized G /\
   exists msg, Wrapper.fission_get_error G' = Some msg)
  \/
  (exists written,
     w = Some written /\ G' = G /\
     Z.of_nat (String.length written) < out_len /\
     (out_len <= 2 ^ 31 -> n = Z.of_nat (String.length written))).
Proof.
  intros Hnn H.
  unfold Wrapper.fission_disassemble, Wrapper.fission_decompile in H.
  destruct decomp as [d|];
    [|destruct H as [H|H]; left; eapply fail_contract; eauto; reflexivity].
  destruct (Wrapper.initialized d); cbn [negb] in H;
    [|destruct H as [H|H]; left; eapply fail_contract; eauto; reflexivity].
  destruct bytes as [[|b bs]|];
    try (destruct H as [H|H]; left; eapply fail_contract; eauto; reflexivity).
  destruct (negb out_buffer || (out_len =? 0)) eqn:Hout;
    [destruct H as [H|H]; left; eapply fail_contract; eauto; reflexivity|].
  assert (Hpos : 0 < out_len).
  { apply orb_false_elim in Hout as [_ Hz]. apply Z.eqb_neq in Hz. lia. }
  cbv zeta in H.
  destruct (Wrapper.new_Sleigh _ _) as [sleigh|[x|what|]].
  - destruct H as [H|H].
    + destruct (Wrapper.disassemble_loop _ _ _ _ _ _) as [[sl output] [u|[x|what|]]].
      * right. eapply copy_contract; eauto.
      * discriminate H.
      * left. eapply fail_contract; eauto; reflexivity.
      * discriminate H.
    + right. eapply copy_contract; eauto.
  - destruct H as [H|H]; discriminate H.
  - destruct H as [H|H]; left; eapply fail_contract; eauto; reflexivity.
  - destruct H as [H|H]; discriminate H.
Qed.

Lemma wrapper_budget_step count :
  count < Wrapper.max_instructions ->
  (S (Wrapper.budget (count + 1)) <= Wrapper.budget count)%nat.
Proof. unfold Wrapper.budget, Wrapper.max_instructions. lia. Qed.

Lemma wrapper_budget_succ count :
  count < Wrapper.max_instructions ->
  Wrapper.budget count = S (Wrapper.budget (count + 1)).
Proof. unfold Wrapper.budget, Wrapper.max_instructions. lia. Qed.

(** The loop invariant of [disassemble_loop], for a run that returns: the
    calls of [printAssembly] it made, why it made no more, and what they
    added to the stream. *)
Lemma disassemble_loop_calls sleigh output bytes_len base_addr offset count :
  forall sleigh' output' u,
    Wrapper.disassemble_loop sleigh output bytes_len base_addr offset count
    = (sleigh', output', Ok u) ->
    exists calls : list Decode,
      decodes bytes_len base_addr sleigh offset calls sleigh' /\
      output' = dumped output calls /\
      ((exists pre len dumps, calls = pre ++ [(len, dumps)] /\ len <= 0) \/
       List.length calls = Wrapper.budget count \/
       bytes_len <= offset_after offset calls) /\
      (List.length calls <= Wrapper.budget count)%nat /\
      (int4_lengths -> 0 <= offset -> bytes_len <= 2 ^ 63 ->
       Z.of_nat (List.length calls) <= Z.max 0 (bytes_len - offset)).
Proof.
  funelim (Wrapper.disassemble_loop sleigh output bytes_len base_addr offset count);
    intros s0 o0 u0 Hs.
  - inversion Hs; subst. exists []. cbn.
    split; [reflexivity|]. split; [reflexivity|]. split; [right; right; lia|].
    split; lia.
  - inversion Hs; subst. exists []. cbn.
    split; [reflexivity|]. split; [reflexivity|].
    split; [right; left; unfold Wrapper.budget, Wrapper.max_instructions in *; lia|].
    split; lia.
  - discriminate Hs.
  - inversion Hs; subst. pose proof (wrapper_budget_step _ Hlt).
    exists [(instr_len, dumps)]. unfold dumped. cbn. rewrite app_nil_r.
    split.
    { split; [assumption|]. exists s0. split; [assumption|].
      split; [intros Hne; now elim Hne | reflexivity]. }
    split; [reflexivity|]. split; [|split; lia].
    left. exists [], instr_len, dumps. split; [reflexivity | assumption].
  - match goal with IH : forall _ _ _, _ -> exists _, _ |- _ =>
      destruct (IH _ _ _ Hs) as (calls & Hd & Ho & Hwhy & Hb & Hoff)
    end.
    pose proof (wrapper_budget_step _ Hlt). pose proof (wrapper_budget_succ _ Hlt).
    exists ((instr_len, dumps) :: calls). split; [|split; [|split; [|split]]].
    + cbn. split; [assumption|]. exists sleigh'. repeat split; [assumption | lia | exact Hd].
    + rewrite Ho. unfold dumped. cbn. now rewrite fold_left_app.
    + destruct Hwhy as [(pre & len & ds & -> & Hlen) | [Hcap | Hend]].
      * left. exists ((instr_len, dumps) :: pre), len, ds. split; [reflexivity | exact Hlen].
      * right; left. cbn. lia.
      * right; right. exact Hend.
    + cbn. lia.
    + intros Hint Hnn Hmax.
      match goal with Hp : Wrapper.printAssembly _ _ = _ |- _ =>
        pose proof (Hint _ _ _ _ _ Hp) as Hlen
      end.
      assert (Hw : wrap64 (offset + instr_len) = offset + instr_len)
        by (apply wrap64_small; unfold two64; lia).
      rewrite Hw in Hoff. specialize (Hoff Hint ltac:(lia) Hmax). cbn [List.length]. lia.
Qed.

(** X19.  [fission_disassemble] calls [printAssembly] at most 100 times,
    and, the library returning [int4] lengths, no more often than the buffer
    has bytes.  For a call that writes a text there is the translator the
    call set up and the run of [printAssembly] calls the loop made on it,
    each at [base_addr] plus the offset reached, in the state the call
    before left, only the last one possibly without an instruction, ended by
    such an answer, by the 100th call or by the end of the buffer; that run
    has at most 100 calls and at most as many as the buffer has bytes, and
    the text written is the lines those calls dumped, in order, cut to the
    output buffer. *)
Theorem fission_disassemble_bounded d bytes base_addr out_len G G' n written :
  int4_lengths ->
  Z.of_nat (List.length bytes) <= 2 ^ 63 ->
  Wrapper.fission_disassemble (Some d) (Some bytes) base_addr true out_len G
  = (G', Returns (n, Some written)) ->
  exists sleigh (calls : list Decode) sleigh',
    Wrapper.new_Sleigh (Wrapper.sla_dir d ++ "/x86-64.sla")
      (BufferLoadImage.mk bytes base_addr) = Ok sleigh /\
    decodes (Z.of_nat (List.length bytes)) base_addr sleigh 0 calls sleigh' /\
    loop_left (Z.of_nat (List.length bytes)) calls /\
    (List.length calls <= 100)%nat /\
    (List.length calls <= List.length bytes)%nat /\
    written = snd (copy_out (dumped EmptyString calls) out_len).
Proof.
  intros Hint Hmax H. unfold Wrapper.fission_disassemble, Wrapper.fail in H.
  destruct (Wrapper.initialized d); cbn [negb] in H; [|discriminate H].
  destruct bytes as [|b bs]; [discriminate H|].
  cbn [negb orb] in H. destruct (out_len =? 0); [discriminate H|]. cbv zeta in H.
  destruct (Wrapper.new_Sleigh _ _) as [sleigh|[x|what|]] eqn:Hnew; try discriminate H.
  destruct (Wrapper.disassemble_loop _ _ _ _ _ _) as [[sl output] r] eqn:Hloop.
  destruct r as [u|[x|what|]]; try discriminate H.
  apply disassemble_loop_calls in Hloop as (calls & Hd & Ho & Hwhy & Hb & Hoff).
  change (Wrapper.budget 0) with 100%nat in Hb, Hwhy.
  exists sleigh, calls, sl. split; [reflexivity|]. split; [exact Hd|].
  split; [exact Hwhy|]. split; [exact Hb|]. split.
  - specialize (Hoff Hint ltac:(lia) Hmax). lia.
  - subst output. destruct (copy_out (dumped EmptyString calls) out_len) as [n0 w0].
    inversion H; subst. reflexivity.
Qed.

(** X20.  The contract of [fission_decompiler_init].  A call never takes
    the availability of the library away.  A call that returns a handle was
    given a non-null directory, the handle is initialised and holds that
    directory, the library is then available and the last error is as
    before.  A call that returns the null pointer leaves one of three
    messages to read: the argument was null, and the availability is as it
    was; or the library did not start, and it was not and is not available;
    or the handle could not be created, and the library is available all the
    same. *)
Theorem fission_decompiler_init_contract sla_dir alloc G G' h :
  Wrapper.fission_decompiler_init sla_dir alloc G = (G', Returns h) ->
  (Wrapper.fission_is_available G = 1 -> Wrapper.fission_is_available G' = 1) /\
  match h with
  | Some d =>
      exists dir, sla_dir = Some dir /\ d = Wrapper.mkDecompiler dir true /\
                  alloc = Ok tt /\
                  Wrapper.fission_is_available G' = 1 /\
                  Wrapper.g_last_error G' = Wrapper.g_last_error G
  | None =>
      exists msg,
        Wrapper.fission_get_error G' = Some msg /\
        ((sla_dir = None /\ msg = "sla_dir is null"%string /\
          Wrapper.fission_is_available G' = Wrapper.fission_is_available G) \/
         (exists what,
            msg = ("Failed to initialize library: " ++ what)%string /\
            Wrapper.fission_is_available G = 0 /\
            Wrapper.fission_is_available G' = 0) \/
         (exists what,
            msg = ("Failed to create decompiler: " ++ what)%string /\
            alloc = Throw (std_exception what) /\
            Wrapper.fission_is_available G' = 1))
  end.
Proof.
  unfold Wrapper.fission_decompiler_init, Wrapper.ensureLibraryInitialized,
    Wrapper.fission_is_available, Wrapper.fission_get_error.
  destruct sla_dir as [dir|].
  - destruct (Wrapper.g_library_initialized G) eqn:Hi.
    + destruct alloc as [[]|[x|what|]]; intros H; inversion H; subst; clear H;
        cbn [Wrapper.set_last_error Wrapper.g_library_initialized Wrapper.g_last_error empty
             append];
        rewrite ?Hi.
      * split; [auto|]. exists dir. auto.
      * split; [auto|]. eexists. split; [reflexivity|].
        right; right. exists what. auto.
    + destruct (Wrapper.startDecompilerLibrary [dir]) as [u|[x|what|]].
      * destruct alloc as [[]|[x|what|]]; intros H; inversion H; subst; clear H;
          cbn [Wrapper.set_last_error Wrapper.g_library_initialized Wrapper.g_last_error
               empty append].
        -- split; [auto|]. exists dir. auto.
        -- split; [auto|]. eexists. split; [reflexivity|].
           right; right. exists what. auto.
      * intros H; inversion H.
      * intros H; inversion H; subst; clear H.
        cbn [Wrapper.set_last_error Wrapper.g_library_initialized Wrapper.g_last_error
             empty append].
        rewrite Hi. split; [discriminate|]. eexists. split; [reflexivity|].
        right; left. exists what. auto.
      * intros H; inversion H.
  - intros H; inversion H; subst; clear H.
    cbn [Wrapper.set_last_error Wrapper.g_library_initialized Wrapper.g_last_error
         empty append].
    split; [auto|]. eexists. split; [reflexivity|]. left. auto.
Qed.

(** X21.  The library is started at most once: once it is available,
    [fission_decompiler_init] with a non-null directory answers without
    calling the library, whatever the library would answer, and the library
    stays available.  When the handle is created the call returns it,
    initialised and holding that directory, and touches no file-scope
    variable; when its creation throws a [std::exception] the call returns
    the null pointer and only sets the error message. *)
Theorem fission_decompiler_init_once dir alloc G :
  Wrapper.fission_is_available G = 1 ->
  Wrapper.fission_decompiler_init (Some dir) alloc G
  = match alloc with
    | Ok _ => (G, Returns (Some (Wrapper.mkDecompiler dir true)))
    | Throw (std_exception what) =>
        (Wrapper.set_last_error ("Failed to create decompiler: " ++ what) G, Returns None)
    | Throw e => (G, Escapes e)
    end /\
  Wrapper.fission_is_available (fst (Wrapper.fission_decompiler_init (Some dir) alloc G)) = 1.
Proof.
  unfold Wrapper.fission_is_available, Wrapper.fission_decompiler_init,
    Wrapper.ensureLibraryInitialized.
  destruct (Wrapper.g_library_initialized G) eqn:Hi; [|discriminate].
  intros _. destruct alloc as [[]|[x|what|]]; cbn; rewrite ?Hi; split; reflexivity.
Qed.

End WrapperFacts.

Section WrapperExamples.

Lemma mini_int4_lengths : int4_lengths (L := Wrapper.mini).
Proof.
  intros addr sleigh sleigh' len dumps H. cbn in H.
  destruct (BufferLoadImage.loadFill sleigh 1 addr) as [|b [|b' l]];
    try (inversion H; fail).
  - destruct b; inversion H; subst; reflexivity.
  - destruct b; inversion H; subst; reflexivity.
Defined.

Lemma wrapper_refuses_invalid_arguments_witness :
  let G := Wrapper.mkGlobals "" false in
  invalid_arguments None (Some [x90]) true 64 /\
  exists msg,
    In msg argument_errors /\
    Wrapper.fission_disassemble (L := Wrapper.mini) None (Some [x90]) 4096 true 64 G
    = (Wrapper.set_last_error msg G, Returns (-1, None)) /\
    Wrapper.fission_decompile (L := Wrapper.mini) None (Some [x90]) 4096 true 64 G
    = (Wrapper.set_last_error msg G, Returns (-1, None)) /\
    Wrapper.fission_get_error (Wrapper.set_last_error msg G) = Some msg.
Proof.
  cbv zeta. split; [left; reflexivity|].
  apply (wrapper_refuses_invalid_arguments
           None (Some [x90]) 4096 true 64 (Wrapper.mkGlobals "" false)).
  left. reflexivity.
Defined.

Lemma wrapper_return_contract_witness :
  let G := Wrapper.mkGlobals "stale" true in
  let d := Wrapper.mkDecompiler "/opt/sla" true in
  (0 <= 8 /\
   Wrapper.fission_disassemble (L := Wrapper.mini) (Some d) (Some [x90; xc3]) 4096 true 8 G
   = (G, Returns (7, Some "1000:  "%string))) /\
  ((7 = -1 /\ Some "1000:  "%string = None /\
    Wrapper.g_library_initialized G = Wrapper.g_library_initialized G /\
    exists msg, Wrapper.fission_get_error G = Some msg)
   \/
   (exists written,
      Some "1000:  "%string = Some written /\ G = G /\
      Z.of_nat (String.length written) < 8 /\
      (8 <= 2 ^ 31 -> 7 = Z.of_nat (String.length written)))).
Proof.
  cbv zeta. split; [split; [lia | vm_compute; reflexivity]|].
  apply (wrapper_return_contract (L := Wrapper.mini)
           (Some (Wrapper.mkDecompiler "/opt/sla" true)) (Some [x90; xc3]) 4096 true 8
           (Wrapper.mkGlobals "stale" true)).
  - lia.
  - left. vm_compute. reflexivity.
Defined.

Lemma fission_disassemble_bounded_witness :
  let G := Wrapper.mkGlobals "" true in
  let d := Wrapper.mkDecompiler "/opt/sla" true in
  (int4_lengths (L := Wrapper.mini) /\
   Z.of_nat (List.length [x90; xc3]) <= 2 ^ 63 /\
   Wrapper.fission_disassemble (L := Wrapper.mini) (Some d) (Some [x90; xc3]) 4096 true 64 G
   = (G, Returns (22, Some ("1000:  NOP" ++ nl ++ "1001:  RET" ++ nl)%string))) /\
  exists sleigh (calls : list Decode) sleigh',
    Wrapper.new_Sleigh (SleighLib := Wrapper.mini) (Wrapper.sla_dir d ++ "/x86-64.sla")
      (BufferLoadImage.mk [x90; xc3] 4096) = Ok sleigh /\
    decodes (L := Wrapper.mini) (Z.of_nat (List.length [x90; xc3])) 4096 sleigh 0 calls sleigh' /\
    loop_left (Z.of_nat (List.length [x90; xc3])) calls /\
    (List.length calls <= 100)%nat /\
    (List.length calls <= List.length [x90; xc3])%nat /\
    ("1000:  NOP" ++ nl ++ "1001:  RET" ++ nl)%string
    = snd (copy_out (dumped EmptyString calls) 64).
Proof.
  cbv zeta. split.
  - split; [exact mini_int4_lengths|]. split; [vm_compute; discriminate|].
    vm_compute. reflexivity.
  - apply (fission_disassemble_bounded (L := Wrapper.mini)
             (Wrapper.mkDecompiler "/opt/sla" true) [x90; xc3] 4096 64
             (Wrapper.mkGlobals "" true) (Wrapper.mkGlobals "" true) 22).
    + exact mini_int4_lengths.
    + vm_compute. discriminate.
    + vm_compute. reflexivity.
Defined.

Lemma fission_decompiler_init_contract_witness :
  let G := Wrapper.mkGlobals "" false in
  let G' := Wrapper.mkGlobals "Failed to create decompiler: std::bad_alloc" true in
  let alloc := Throw (std_exception "std::bad_alloc") in
  Wrapper.fission_decompiler_init (L := Wrapper.mini) (Some "/opt/sla"%string) alloc G
  = (G', Returns None) /\
  (Wrapper.fission_is_available G = 1 -> Wrapper.fission_is_available G' = 1) /\
  exists msg,
    Wrapper.fission_get_error G' = Some msg /\
    ((Some "/opt/sla"%string = None /\ msg = "sla_dir is null"%string /\
      Wrapper.fission_is_available G' = Wrapper.fission_is_available G) \/
     (exists what,
        msg = ("Failed to initialize library: " ++ what)%string /\
        Wrapper.fission_is_available G = 0 /\
        Wrapper.fission_is_available G' = 0) \/
     (exists what,
        msg = ("Failed to create decompiler: " ++ what)%string /\
        alloc = Throw (std_exception what) /\
        Wrapper.fission_is_available G' = 1)).
Proof.
  cbv zeta. split; [reflexivity|].
  apply (fission_decompiler_init_contract (L := Wrapper.mini)
           (Some "/opt/sla"%string) (Throw (std_exception "std::bad_alloc"))
           (Wrapper.mkGlobals "" false)
           (Wrapper.mkGlobals "Failed to create decompiler: std::bad_alloc" true) None).
  reflexivity.
Defined.

Lemma fission_decompiler_init_once_witness :
  let G := Wrapper.mkGlobals "stale" true in
  Wrapper.fission_is_available G = 1 /\
  Wrapper.fission_decompiler_init (L := Wrapper.mini) (Some "/elsewhere"%string) (Ok tt) G
  = (G, Returns (Some (Wrapper.mkDecompiler "/elsewhere" true))) /\
  Wrapper.fission_is_available
    (fst (Wrapper.fission_decompiler_init (L := Wrapper.mini)
            (Some "/elsewhere"%string) (Ok tt) G)) = 1.
Proof.
  cbv zeta. split; [reflexivity|].
  apply (fission_decompiler_init_once (L := Wrapper.mini) "/elsewhere" (Ok tt)
           (Wrapper.mkGlobals "stale" true)).
  reflexivity.
Defined.

End WrapperExamples.

(* ===================================================================== *)
(** * The hex dump of the debugging wrapper *)

Section DebugWrapperFacts.

Lemma append_nil_r (s : string) : (s ++ "")%string = s.
Proof. induction s as [|c s IH]; cbn; [reflexivity | now rewrite IH]. Qed.

Lemma put_byte_render output b :
  DebugWrapper.put_byte output b = (output ++ render_byte b)%string.
Proof.
  unfold DebugWrapper.put_byte, render_byte. cbv zeta.
  destruct (Z.of_N (to_N b) <? 16).
  - now rewrite !append_assoc.
  - reflexivity.
Qed.

Lemma skipn_cons_nth {A : Type} (d : A) (l : list A) : forall k,
  (k < List.length l)%nat -> skipn k l = nth k l d :: skipn (S k) l.
Proof.
  induction l as [|x l IH]; intros k Hk; cbn in Hk; [lia|].
  destruct k as [|k]; [reflexivity|]. cbn [skipn nth]. apply IH. lia.
Qed.

(** The inner loop writes the bytes [j .. min(i + 8, len)). *)
Lemma dump_row_spec bytes output i j :
  0 <= j ->
  DebugWrapper.dump_row bytes output i j
  = (output ++ join (map render_byte
                       (firstn (Z.to_nat (i + 8 - j)) (skipn (Z.to_nat j) bytes))))%string.
Proof.
  funelim (DebugWrapper.dump_row bytes output i j); intros Hj.
  - replace (Z.to_nat (i + 8 - j)) with O by lia. cbn. now rewrite append_nil_r.
  - match goal with IH : _ -> DebugWrapper.dump_row _ _ _ _ = _ |- _ =>
      rewrite IH by lia
    end.
    rewrite put_byte_render, append_assoc. f_equal.
    replace (Z.to_nat (i + 8 - j)) with (S (Z.to_nat (i + 8 - (j + 1)))) by lia.
    replace (Z.to_nat (j + 1)) with (S (Z.to_nat j)) by lia.
    rewrite (skipn_cons_nth x00 _ (Z.to_nat j)) by lia. reflexivity.
  - rewrite skipn_all2 by lia. rewrite firstn_nil. cbn. now rewrite append_nil_r.
Qed.

Lemma render_rows_nil n addr : render_rows n addr [] = EmptyString.
Proof. destruct n; reflexivity. Qed.

(** The outer loop writes the rows that start at [i], [i + 8], ... below
    64 and below the length. *)
Lemma dump_rows_spec bytes output addr i :
  forall n, i = 64 - 8 * Z.of_nat n -> 0 <= i ->
  DebugWrapper.dump_rows bytes output addr i
  = (output ++ render_rows n addr (skipn (Z.to_nat i) bytes))%string.
Proof.
  funelim (DebugWrapper.dump_rows bytes output addr i); intros k Hi Hnn.
  - rewrite skipn_all2 by lia. now rewrite render_rows_nil, append_nil_r.
  - destruct k as [|k]; [lia|].
    match goal with IH : forall _, _ -> _ -> DebugWrapper.dump_rows _ _ _ _ = _ |- _ =>
      rewrite (IH k) by lia
    end.
    rewrite dump_row_spec by lia.
    replace (Z.to_nat (i + 8 - i)) with 8%nat by lia.
    replace (Z.to_nat (i + 8)) with (8 + Z.to_nat i)%nat by lia.
    rewrite <- skipn_skipn.
    destruct (skipn (Z.to_nat i) bytes) as [|b rest] eqn:Hsk.
    { exfalso. apply (f_equal (@List.length byte)) in Hsk.
      rewrite length_skipn in Hsk. cbn in Hsk. lia. }
    cbn [render_rows]. rewrite !append_assoc. reflexivity.
  - replace k with O by lia. cbn. now rewrite append_nil_r.
Qed.

(** X22.  The hex dump of [fission_disassemble], for accepted arguments:
    the text is the three header lines followed by at most eight rows, each
    row the running address, ":  ", up to eight bytes as two hex digits and
    a space, and a line feed; what reaches the buffer is that text cut to
    [out_len - 1] characters. *)
Theorem debug_fission_disassemble_dump d b bs base_addr out_len G :
  Wrapper.initialized d = true ->
  out_len <> 0 ->
  DebugWrapper.fission_disassemble (Some d) (Some (b :: bs)) base_addr true out_len G
  = (G,
     (fst (copy_out (DebugWrapper.disassemble_header (Z.of_nat (List.length (b :: bs))) base_addr
                     ++ render_rows 8 base_addr (b :: bs)) out_len),
      Some (snd (copy_out (DebugWrapper.disassemble_header
                             (Z.of_nat (List.length (b :: bs))) base_addr
                           ++ render_rows 8 base_addr (b :: bs)) out_len)))).
Proof.
  intros Hd Hlen. unfold DebugWrapper.fission_disassemble. rewrite Hd. cbn [negb orb].
  apply Z.eqb_neq in Hlen. rewrite Hlen. cbv zeta.
  rewrite (dump_rows_spec _ _ _ 0 8%nat) by lia.
  change (skipn (Z.to_nat 0) (b :: bs)) with (b :: bs).
  destruct (copy_out _ out_len). reflexivity.
Qed.

(** X23.  A byte of the dump reads back: [fission_disassemble] writes every
    byte as exactly two lowercase hex digits and a space (a leading 0 for
    values below 16), and parsing those three characters gives the byte's
    value. *)
Theorem render_byte_reads_back b :
  parse_byte (render_byte b) = Some (Z.of_N (Byte.to_N b)) /\
  String.length (render_byte b) = 3%nat.
Proof. destruct b; split; vm_compute; reflexivity. Qed.

Lemma render_rows_firstn n : forall addr bytes,
  render_rows n addr (firstn (8 * n) bytes) = render_rows n addr bytes.
Proof.
  induction n as [|n IH]; intros addr bytes; [reflexivity|].
  destruct bytes as [|b bs]; [reflexivity|].
  replace (8 * S n)%nat with (8 + 8 * n)%nat by lia.
  remember (b :: bs) as l eqn:Hl.
  assert (Hne : firstn (8 + 8 * n) l <> []) by (subst l; discriminate).
  destruct (firstn (8 + 8 * n) l) as [|b' l'] eqn:Hf; [congruence|].
  rewrite Hl at 1. cbn [render_rows]. rewrite <- Hf, <- Hl.
  rewrite firstn_firstn. replace (Nat.min 8 (8 + 8 * n)) with 8%nat by lia.
  rewrite skipn_firstn_comm. replace (8 + 8 * n - 8)%nat with (8 * n)%nat by lia.
  rewrite IH. reflexivity.
Qed.

(** X24.  Only the first 64 bytes are dumped: two buffers of the same
    length that agree on their first 64 bytes get the same answer from
    [fission_disassemble], whatever the other arguments. *)
Theorem debug_fission_disassemble_first_64 decomp bs1 bs2 base_addr out_buffer out_len G :
  List.length bs1 = List.length bs2 ->
  firstn 64 bs1 = firstn 64 bs2 ->
  DebugWrapper.fission_disassemble decomp (Some bs1) base_addr out_buffer out_len G
  = DebugWrapper.fission_disassemble decomp (Some bs2) base_addr out_buffer out_len G.
Proof.
  intros Hlen Hfirst. unfold DebugWrapper.fission_disassemble.
  destruct decomp as [d|]; [|reflexivity].
  destruct (negb (Wrapper.initialized d)); [reflexivity|].
  destruct bs1 as [|b1 bs1]; destruct bs2 as [|b2 bs2]; try discriminate Hlen;
    [reflexivity|].
  destruct (negb out_buffer || (out_len =? 0)); [reflexivity|]. cbv zeta.
  rewrite !(dump_rows_spec _ _ _ 0 8%nat) by lia.
  change (Z.to_nat 0) with O. cbn [skipn].
  rewrite <- (render_rows_firstn 8 _ (b1 :: bs1)), <- (render_rows_firstn 8 _ (b2 :: bs2)).
  change (8 * 8)%nat with 64%nat. rewrite Hfirst, Hlen. reflexivity.
Qed.

End DebugWrapperFacts.

Section DebugWrapperContract.

(** X25.  The debugging wrapper keeps the return contract of the
    interface: [fission_disassemble] and [fission_decompile] either return
    -1, write nothing and leave an error message to read, or write a text
    that fits the buffer with its NUL, leave the file-scope variables as
    they were and, for a buffer of at most 2^31 bytes, return the number of
    characters written. *)
Theorem debug_wrapper_return_contract decomp bytes base_addr out_buffer out_len G G' n w :
  0 <= out_len ->
  DebugWrapper.fission_disassemble decomp bytes base_addr out_buffer out_len G
    = (G', (n, w)) \/
  DebugWrapper.fission_decompile decomp bytes base_addr out_buffer out_len G
    = (G', (n, w)) ->
  (n = -1 /\ w = None /\
   Wrapper.g_library_initialized G' = Wrapper.g_library_initialized G /\
   exists msg, Wrapper.fission_get_error G' = Some msg)
  \/
  (exists written,
     w = Some written /\ G' = G /\
     Z.of_nat (String.length written) < out_len /\
     (out_len <= 2 ^ 31 -> n = Z.of_nat (String.length written))).
Proof.
  intros Hnn H.
  assert (Hfail : forall msg,
             (Wrapper.set_last_error (String "D" msg) G, (-1, @None string)) = (G', (n, w)) \/
             (Wrapper.set_last_error (String "I" msg) G, (-1, @None string)) = (G', (n, w)) ->
             n = -1 /\ w = None /\
             Wrapper.g_library_initialized G' = Wrapper.g_library_initialized G /\
             exists m, Wrapper.fission_get_error G' = Some m).
  { intros msg [E|E]; inversion E; subst; repeat split; eexists; reflexivity. }
  assert (Hcopy : forall text, 0 < out_len ->
             (let (n0, written) := copy_out text out_len in (G, (n0, Some written)))
             = (G', (n, w)) ->
             exists written,
               w = Some written /\ G' = G /\
               Z.of_nat (String.length written) < out_len /\
               (out_len <= 2 ^ 31 -> n = Z.of_nat (String.length written))).
  { intros text Hpos E. pose proof (copy_out_fits text out_len Hpos) as Hc.
    destruct (copy_out text out_len) as [n0 written]. inversion E; subst.
    exists written. tauto. }
  unfold DebugWrapper.fission_disassemble, DebugWrapper.fission_decompile in H.
  destruct decomp as [d|]; [|left; destruct H as [H|H]; eapply Hfail; eauto].
  destruct (Wrapper.initialized d); cbn [negb] in H;
    [|left; destruct H as [H|H]; eapply Hfail; eauto].
  destruct bytes as [[|b bs]|];
    try (left; destruct H as [H|H]; eapply Hfail; eauto; fail).
  destruct (negb out_buffer || (out_len =? 0)) eqn:Hout;
    [left; destruct H as [H|H]; eapply Hfail; eauto|].
  assert (Hpos : 0 < out_len).
  { apply orb_false_elim in Hout as [_ Hz]. apply Z.eqb_neq in Hz. lia. }
  right. cbv zeta in H. destruct H as [H|H]; eapply Hcopy; eauto.
Qed.

(** X26.  What the debugging [fission_decompiler_init] hands back.  When
    it returns a handle, its argument was a non-null directory, the library
    counts as available from then on, and [fission_decompile] with that
    handle, a non-empty input and a usable buffer answers the fixed text for
    that directory, the input's size and the base address, cut to the
    buffer, and sets no error.  When it returns the null pointer (null
    argument, or the creation of the handle threw), the availability is as
    it was and there is an error message to read. *)
Theorem debug_init_then_decompile sla_dir alloc b bs base_addr out_len G G' r :
  out_len <> 0 ->
  DebugWrapper.fission_decompiler_init sla_dir alloc G = (G', Returns r) ->
  match r with
  | Some h =>
      exists dir,
        sla_dir = Some dir /\
        Wrapper.fission_is_available G' = 1 /\
        DebugWrapper.fission_decompile (Some h) (Some (b :: bs)) base_addr true out_len G'
        = (G',
           (fst (copy_out (DebugWrapper.decompile_text dir
                             (Z.of_nat (List.length (b :: bs))) base_addr) out_len),
            Some (snd (copy_out (DebugWrapper.decompile_text dir
                                   (Z.of_nat (List.length (b :: bs))) base_addr) out_len))))
  | None =>
      Wrapper.fission_is_available G' = Wrapper.fission_is_available G /\
      exists msg, Wrapper.fission_get_error G' = Some msg
  end.
Proof.
  intros Hlen. unfold DebugWrapper.fission_decompiler_init.
  destruct sla_dir as [dir|].
  - destruct alloc as [[]|[x|what|]]; intros H; inversion H; subst.
    + exists dir. split; [reflexivity|]. split; [reflexivity|].
      unfold DebugWrapper.fission_decompile.
      cbn [Wrapper.initialized negb orb Wrapper.sla_dir].
      apply Z.eqb_neq in Hlen. rewrite Hlen.
      destruct (copy_out _ out_len). reflexivity.
    + split; [reflexivity|]. eexists. reflexivity.
  - intros H; inversion H; subst. split; [reflexivity|]. eexists. reflexivity.
Qed.

Lemma debug_fission_disassemble_dump_witness :
  let d := Wrapper.mkDecompiler "/opt/sla" true in
  let G := Wrapper.mkGlobals "" true in
  (Wrapper.initialized d = true /\ 64 <> 0) /\
  DebugWrapper.fission_disassemble (Some d) (Some [x0f; xc3]) 4096 true 64 G
  = (G,
     (fst (copy_out (DebugWrapper.disassemble_header (Z.of_nat (List.length [x0f; xc3])) 4096
                     ++ render_rows 8 4096 [x0f; xc3]) 64),
      Some (snd (copy_out (DebugWrapper.disassemble_header
                             (Z.of_nat (List.length [x0f; xc3])) 4096
                           ++ render_rows 8 4096 [x0f; xc3]) 64)))).
Proof.
  cbv zeta. split; [split; [reflexivity | discriminate]|].
  apply (debug_fission_disassemble_dump (Wrapper.mkDecompiler "/opt/sla" true)
           x0f [xc3] 4096 64 (Wrapper.mkGlobals "" true)).
  - reflexivity.
  - discriminate.
Defined.

Lemma debug_fission_disassemble_first_64_witness :
  let d := Wrapper.mkDecompiler "/opt/sla" true in
  let G := Wrapper.mkGlobals "" true in
  let bs1 := repeat x90 64 ++ [x01] in
  let bs2 := repeat x90 64 ++ [x02] in
  (List.length bs1 = List.length bs2 /\ firstn 64 bs1 = firstn 64 bs2) /\
  DebugWrapper.fission_disassemble (Some d) (Some bs1) 4096 true 4096 G
  = DebugWrapper.fission_disassemble (Some d) (Some bs2) 4096 true 4096 G.
Proof.
  cbv zeta. split; [split; vm_compute; reflexivity|].
  apply (debug_fission_disassemble_first_64 (Some (Wrapper.mkDecompiler "/opt/sla" true))
           (repeat x90 64 ++ [x01]) (repeat x90 64 ++ [x02]) 4096 true 4096
           (Wrapper.mkGlobals "" true)).
  - vm_compute. reflexivity.
  - vm_compute. reflexivity.
Defined.

Lemma debug_wrapper_return_contract_witness :
  let d := Wrapper.mkDecompiler "/opt/sla" true in
  let G := Wrapper.mkGlobals "stale" true in
  (0 <= 8 /\
   DebugWrapper.fission_decompile (Some d) (Some [x90]) 4096 true 8 G
   = (G, (7, Some "// Deco"%string))) /\
  ((7 = -1 /\ Some "// Deco"%string = None /\
    Wrapper.g_library_initialized G = Wrapper.g_library_initialized G /\
    exists msg, Wrapper.fission_get_error G = Some msg)
   \/
   (exists written,
      Some "// Deco"%string = Some written /\ G = G /\
      Z.of_nat (String.length written) < 8 /\
      (8 <= 2 ^ 31 -> 7 = Z.of_nat (String.length written)))).
Proof.
  cbv zeta. split; [split; [lia | vm_compute; reflexivity]|].
  apply (debug_wrapper_return_contract (Some (Wrapper.mkDecompiler "/opt/sla" true))
           (Some [x90]) 4096 true 8 (Wrapper.mkGlobals "stale" true)).
  - lia.
  - right. vm_compute. reflexivity.
Defined.

Lemma debug_init_then_decompile_witness :
  let G := Wrapper.mkGlobals "" false in
  let G' := Wrapper.mkGlobals "" true in
  let h := Wrapper.mkDecompiler "/opt/sla" true in
  (64 <> 0 /\
   DebugWrapper.fission_decompiler_init (Some "/opt/sla"%string) (Ok tt) G
   = (G', Returns (Some h))) /\
  exists dir,
    Some "/opt/sla"%string = Some dir /\
    Wrapper.fission_is_available G' = 1 /\
    DebugWrapper.fission_decompile (Some h) (Some [x90]) 4096 true 64 G'
    = (G',
       (fst (copy_out (DebugWrapper.decompile_text dir (Z.of_nat (List.length [x90]))
                                                   4096) 64),
        Some (snd (copy_out (DebugWrapper.decompile_text dir
                               (Z.of_nat (List.length [x90])) 4096) 64)))).
Proof.
  cbv zeta. split; [split; [discriminate | reflexivity]|].
  apply (debug_init_then_decompile (Some "/opt/sla"%string) (Ok tt) x90 [] 4096 64
           (Wrapper.mkGlobals "" false) (Wrapper.mkGlobals "" true)
           (Some (Wrapper.mkDecompiler "/opt/sla" true))).
  - discriminate.
  - reflexivity.
Defined.

End DebugWrapperContract.
